(** * rx-player: the bandwidth estimator and the Player controller

    A shallow embedding of [BandwidthEstimator] (core/abr) and of the
    state-carrying part of the [Player] class, with the properties the
    specification states about them.

    JavaScript numbers are IEEE 754 binary64 values: they are modelled by
    Rocq's primitive floats, so every arithmetic expression of the source
    keeps its rounding, its infinities and its NaN. *)

From Stdlib Require Import Bool List ZArith Lia String.
From Stdlib Require Import Floats.
From Stdlib Require Uint63.
From stdpp Require Import base option list gmap strings.
Import ListNotations.

Set Warnings "-inexact-float".

(** ** JavaScript numbers *)

Module JS.

Definition number := float.

(** [Number(n)] for an array length. *)
Definition of_length (n : nat) : number :=
  PrimFloat.of_uint63 (Uint63.of_Z (Z.of_nat n)).

(** The relational operators on numbers; every comparison with NaN is
    false. *)
Definition lt (x y : number) : bool := PrimFloat.ltb x y.
Definition gt (x y : number) : bool := PrimFloat.ltb y x.
Definition le (x y : number) : bool := PrimFloat.leb x y.

(** [x !== y] on numbers: NaN differs from itself, the two zeros do not
    differ. *)
Definition strict_neq (x y : number) : bool := negb (PrimFloat.eqb x y).

(** [Math.min] and [Math.max]: NaN when an argument is NaN, and [-0] is
    smaller than [+0]. *)
Definition Math_min (x y : number) : number :=
  if PrimFloat.is_nan x || PrimFloat.is_nan y then PrimFloat.nan
  else if PrimFloat.ltb x y then x
  else if PrimFloat.ltb y x then y
  else if PrimFloat.get_sign x then x else y.

Definition Math_max (x y : number) : number :=
  if PrimFloat.is_nan x || PrimFloat.is_nan y then PrimFloat.nan
  else if PrimFloat.ltb x y then y
  else if PrimFloat.ltb y x then x
  else if PrimFloat.get_sign x then y else x.

(** Truthiness of a number: [0], [-0] and NaN are falsy. *)
Definition truthy (x : number) : bool :=
  negb (PrimFloat.is_zero x || PrimFloat.is_nan x).

End JS.

(** ** The collaborators of the estimator that are imported, not defined,
    by the estimator's file *)

(** The [EWMA] class of [./ewma]: a constructor taking the half-life, a
    sample method and an estimate.  It is used through this interface
    only. *)
Class EWMA_class (EWMA : Type) := {
  EWMA_new : JS.number -> EWMA;
  EWMA_addSample : JS.number -> JS.number -> EWMA -> EWMA;
  EWMA_getEstimate : EWMA -> JS.number
}.

(** The four constants read from [config]. *)
Class Config := {
  ABR_MINIMUM_TOTAL_BYTES : JS.number;
  ABR_MINIMUM_CHUNK_SIZE : JS.number;
  ABR_FAST_EMA : JS.number;
  ABR_SLOW_EMA : JS.number
}.

(** The ABR manager returned by [Adaptive(...)] of [../adaptive]: the
    player calls its setters and getters and hands it to the Stream.  It is
    used through this interface only; a call of a setter yields the manager
    after the call. *)
Class Adaptive_class (AbrManager : Type) := {
  Abr_setVideoBitrate : JS.number -> AbrManager -> AbrManager;
  Abr_setAudioBitrate : JS.number -> AbrManager -> AbrManager;
  Abr_setVideoMaxBitrate : JS.number -> AbrManager -> AbrManager;
  Abr_setAudioMaxBitrate : JS.number -> AbrManager -> AbrManager;
  Abr_getVideoMaxBitrate : AbrManager -> JS.number;
  Abr_getAudioMaxBitrate : AbrManager -> JS.number;
  Abr_setWantedBufferAhead : JS.number -> AbrManager -> AbrManager;
  Abr_setMaxBufferAhead : JS.number -> AbrManager -> AbrManager;
  Abr_setMaxBufferBehind : JS.number -> AbrManager -> AbrManager
}.

(** ** BandwidthEstimator *)

Module BandwidthEstimator.

Section Estimator.

Context {EWMA : Type} {ewma : EWMA_class EWMA} {config : Config}.

Record t := mk {
  _fastEWMA : EWMA;
  _slowEWMA : EWMA;
  _bytesSampled : JS.number;
  _lowLatencyMode : bool;
  _lowLatencyBandwidthBuffer : list JS.number
}.

(** [constructor(lowLatencyMode)] *)
Definition new (lowLatencyMode : bool) : t :=
  {| _fastEWMA := EWMA_new ABR_FAST_EMA;
     _slowEWMA := EWMA_new ABR_SLOW_EMA;
     _bytesSampled := 0%float;
     _lowLatencyMode := lowLatencyMode;
     _lowLatencyBandwidthBuffer := [] |}.

(** [buffer.reduce((acc, val) => acc + val, 0) / buffer.length] *)
Definition mean (buffer : list JS.number) : JS.number :=
  (fold_left (fun acc val => acc + val) buffer 0
   / JS.of_length (length buffer))%float.

(** [getLowLatencyBandwidth()]; [None] is [undefined]. *)
Definition getLowLatencyBandwidth (s : t) : option JS.number :=
  if length (_lowLatencyBandwidthBuffer s) <? 3 then None
  else Some (mean (_lowLatencyBandwidthBuffer s)).

(** The test guarding the early [return] of [addSample]. *)
Definition serverLimited (lastBandwidth : option JS.number)
    (bandwidth : JS.number) : bool :=
  match lastBandwidth with
  | None => false
  | Some last => JS.gt bandwidth (last * 0.8)%float && JS.le bandwidth last
  end.

(** [buffer.push(bandwidth); if (buffer.length > 3) buffer.shift()] *)
Definition pushBandwidth (buffer : list JS.number) (bandwidth : JS.number)
    : list JS.number :=
  let pushed := buffer ++ [bandwidth] in
  if 3 <? length pushed then tl pushed else pushed.

(** [addSample(durationInMs, numberOfBytes, isChunk)] *)
Definition addSample (durationInMs numberOfBytes : JS.number)
    (isChunk : bool) (s : t) : t :=
  let bandwidth := (numberOfBytes * 8000 / durationInMs)%float in
  let afterChunk : option t :=
    if isChunk && _lowLatencyMode s then
      if serverLimited (getLowLatencyBandwidth s) bandwidth then None
      else Some {| _fastEWMA := _fastEWMA s;
                   _slowEWMA := _slowEWMA s;
                   _bytesSampled := _bytesSampled s;
                   _lowLatencyMode := _lowLatencyMode s;
                   _lowLatencyBandwidthBuffer :=
                     pushBandwidth (_lowLatencyBandwidthBuffer s) bandwidth |}
    else Some s in
  match afterChunk with
  | None => s
  | Some s1 =>
      if JS.lt numberOfBytes ABR_MINIMUM_CHUNK_SIZE then s1
      else
        let weight := (durationInMs / 1000)%float in
        {| _fastEWMA := EWMA_addSample weight bandwidth (_fastEWMA s1);
           _slowEWMA := EWMA_addSample weight bandwidth (_slowEWMA s1);
           _bytesSampled := (_bytesSampled s1 + numberOfBytes)%float;
           _lowLatencyMode := _lowLatencyMode s1;
           _lowLatencyBandwidthBuffer := _lowLatencyBandwidthBuffer s1 |}
  end.

(** [getEstimate(bandwidthMayBeServerLimited)] *)
Definition getEstimate (bandwidthMayBeServerLimited : bool) (s : t)
    : option JS.number :=
  let regularEstimate :=
    if JS.lt (_bytesSampled s) ABR_MINIMUM_TOTAL_BYTES then None
    else Some (JS.Math_min (EWMA_getEstimate (_fastEWMA s))
                           (EWMA_getEstimate (_slowEWMA s))) in
  if negb (_lowLatencyMode s) || negb bandwidthMayBeServerLimited
  then regularEstimate
  else
    match getLowLatencyBandwidth s with
    | None => regularEstimate
    | Some lowLatencyBandwidthEstimate =>
        match regularEstimate with
        | None => Some lowLatencyBandwidthEstimate
        | Some regular =>
            Some (JS.Math_max lowLatencyBandwidthEstimate regular)
        end
    end.

(** [reset()] *)
Definition reset (s : t) : t :=
  {| _fastEWMA := EWMA_new ABR_FAST_EMA;
     _slowEWMA := EWMA_new ABR_SLOW_EMA;
     _bytesSampled := 0%float;
     _lowLatencyMode := _lowLatencyMode s;
     _lowLatencyBandwidthBuffer := _lowLatencyBandwidthBuffer s |}.

(** A sample as the metrics bus delivers it. *)
Record Sample := {
  durationInMs : JS.number;
  numberOfBytes : JS.number;
  isChunk : bool
}.

Definition addSamples (samples : list Sample) (s : t) : t :=
  fold_left (fun acc x =>
               addSample (durationInMs x) (numberOfBytes x) (isChunk x) acc)
            samples s.

(** The two methods that change an estimator, as calls, and a run of
    calls. *)
Inductive Call :=
| CallAddSample (x : Sample)
| CallReset.

Definition perform (c : Call) (s : t) : t :=
  match c with
  | CallAddSample x =>
      addSample (durationInMs x) (numberOfBytes x) (isChunk x) s
  | CallReset => reset s
  end.

Definition performAll (calls : list Call) (s : t) : t :=
  fold_left (fun acc c => perform c acc) calls s.

End Estimator.

Arguments t EWMA : clear implicits.

End BandwidthEstimator.

(** ** Player

    The [Player] class keeps its state in fields of [this]; its methods are
    embedded as computations over a record of those fields that either
    complete or throw.  What the player hands to its collaborators (the
    listeners of its [EventEmitter], the subscribers of its subjects, the
    subscriptions and the EME module it releases) is appended, in order, to
    the [effects] field.  Listeners observe; they do not call back into the
    player. *)

Module Player.

Local Open Scope string_scope.

Inductive PlayerState :=
| PLAYER_STOPPED
| PLAYER_LOADED
| PLAYER_LOADING
| PLAYER_PLAYING
| PLAYER_PAUSED
| PLAYER_ENDED
| PLAYER_BUFFERING
| PLAYER_SEEKING.

#[global] Instance PlayerState_eq_dec : EqDecision PlayerState.
Proof. solve_decision. Defined.

(** *** The objects the player stores or passes on *)

Record Manifest := { isLive : bool; manifestUrl : string }.

Record LanguageManager := { languageManagerId : nat }.

Record Representation := { bitrate : JS.number }.

(** An adaptation, with the result of its [getAvailableBitrates()]. *)
Record Adaptation := { getAvailableBitrates : list JS.number }.

Record Segment := { segmentId : nat }.

(** [parsed] of a pipeline event, with its [segmentData]. *)
Record Parsed := { segmentData : string }.

(** An error object, identified by its message. *)
Record ErrorObject := { message : string }.

Record TimeFragment := { start : option JS.number; end_ : option JS.number }.

(** The objects behind the fields that [dispose] sets to [null]. *)
Variant Subject := a_subject.
Variant Subscription := a_subscription.
Variant Metrics := the_metrics.
Variant CreatePipelines := the_createPipelines.
Variant HTMLVideoElement := the_videoElement.

(** *** Stream events *)

Record BufferValue := {
  bufferType : string;
  adaptation : option Adaptation;
  representation : option Representation
}.

Record ManifestValue := {
  manifest : option Manifest;
  languageManager : option LanguageManager
}.

Record PipelineValue := {
  pipelineSegment : Segment;
  pipelineBufferType : string;
  parsed : option Parsed
}.

(** The [{ type, value }] objects: the four types [_onStreamNext] switches
    on, the three the player builds itself for its [_stream$] bus, and any
    other type the Stream emits ("loaded", "stalled", ...). *)
Inductive StreamInfos :=
| SBuffer (value : BufferValue)
| SManifest (value : ManifestValue)
| SManifestUpdate (value : ManifestValue)
| SPipeline (value : PipelineValue)
| SWarning (value : ErrorObject)
| SError (value : ErrorObject)
| SEnded
| SOther (type : string).

(** *** What the player emits *)

Inductive Payload :=
| PNumber (n : JS.number)
| PPlayerState (s : PlayerState)
| PError (e : ErrorObject)
| PManifest (m : option Manifest)
| PSegment (s : Segment)
| PImageTrack (data : option string)
| PEmptyTimings.

Inductive Resource :=
| R_metrics | R_abrManager | R_fullscreen | R_stream | R_errorStream.

(** *** Completions

    A method runs on the fields of [this] and either completes with a
    value or throws; in both cases it leaves the fields as it has assigned
    them so far. *)

Inductive Exn :=
| TypeError (what : string)
| AssertionError (msg : string).

Inductive Completion (A : Type) :=
| Normal (a : A)
| Throw (e : Exn).

Arguments Normal {A} a.
Arguments Throw {A} e.

Definition Method (S A : Type) : Type := S -> Completion A * S.

Definition ret {S A} (a : A) : Method S A := fun p => (Normal a, p).

Definition throw {S A} (e : Exn) : Method S A := fun p => (Throw e, p).

Definition bind {S A B} (c : Method S A) (k : A -> Method S B)
    : Method S B :=
  fun p =>
    match c p with
    | (Normal a, p') => k a p'
    | (Throw e, p') => (Throw e, p')
    end.

Declare Scope player_scope.
Delimit Scope player_scope with player.
Bind Scope player_scope with Method.

Notation "x <- c ;; k" := (bind c (fun x => k))
  (at level 100, c at next level, k at level 200, right associativity)
  : player_scope.
Notation "c ;; k" := (bind c (fun _ => k))
  (at level 100, k at level 200, right associativity) : player_scope.

Local Open Scope player_scope.

Definition this {S} : Method S S := fun p => (Normal p, p).

Definition update {S} (f : S -> S) : Method S unit :=
  fun p => (Normal tt, f p).

(** [when c body] is [if (c) { body }]. *)
Definition when {S} (c : bool) (body : Method S unit) : Method S unit :=
  if c then body else ret tt.

(** Reading a property or calling a method of the object in a field throws
    a [TypeError] when the field holds [null] or [undefined]. *)
Definition deref {S A} (field : S -> option A) (name : string)
    : Method S A :=
  fun p =>
    match field p with
    | Some a => (Normal a, p)
    | None => (Throw (TypeError name), p)
    end.

(** [assert(cond, msg)] of [../utils/assert]. *)
Definition assert {S} (cond : bool) (msg : string) : Method S unit :=
  if cond then ret tt else throw (AssertionError msg).

Definition exec {S A} (c : Method S A) (p : S) : S := snd (c p).

Definition completion {S A} (c : Method S A) (p : S) : Completion A :=
  fst (c p).

Section WithAbrManager.

Context {AbrManager : Type} {abrManager : Adaptive_class AbrManager}.

Inductive Effect :=
| Trigger (event : string) (payload : Payload)
    (* this.trigger(event, payload) *)
| ClearLoadedNext                 (* this._clearLoaded$.next() *)
| ClearLoadedComplete             (* this._clearLoaded$.complete() *)
| StreamNext (infos : StreamInfos)         (* this._stream$.next(infos) *)
| ImageTrackNext (data : option string)    (* this._imageTrack$.next(data) *)
| Unsubscribe (r : Resource)               (* r.unsubscribe() *)
| EmeDispose                               (* emeDispose() *)
| LanguageSubscriptions (lm : LanguageManager)
    (* the two subscriptions of _addLanguageSubscriptions *)
| StreamConnect (adaptive : option AbrManager).
    (* Stream({ adaptive, ... }), subscribed to and connected *)

(** *** The fields of [this]

    [None] is [null] or [undefined].  [$] is not a letter of Rocq's
    identifiers: [_clearLoaded'] is [_clearLoaded$], and so on. *)
Record t := mk {
  state : option PlayerState;
  _manifest : option Manifest;
  _languageManager : option LanguageManager;
  _currentRepresentations : gmap string (option Representation);
  _currentAdaptations : gmap string (option Adaptation);
  _recordedEvents : gmap string JS.number;
  _timeFragment : TimeFragment;
  _fatalError : option ErrorObject;
  _currentImagePlaylist : option string;
  _playing' : option bool;
  _clearLoaded' : option Subject;
  _stream' : option Subject;
  _errorStream : option Subject;
  _metrics : option Metrics;
  _abrManager : option AbrManager;
  _fullscreen' : option Subscription;
  _createPipelines : option CreatePipelines;
  videoElement : option HTMLVideoElement;
  adaptive : option AbrManager;
  effects : list Effect
}.

(** The methods of the player. *)
Definition M (A : Type) : Type := Method t A.

(** *** Assignments to the fields of [this] *)

Definition set_state (v : option PlayerState) (p : t) : t :=
  {| state := v; _manifest := _manifest p;
     _languageManager := _languageManager p;
     _currentRepresentations := _currentRepresentations p;
     _currentAdaptations := _currentAdaptations p;
     _recordedEvents := _recordedEvents p; _timeFragment := _timeFragment p;
     _fatalError := _fatalError p;
     _currentImagePlaylist := _currentImagePlaylist p;
     _playing' := _playing' p; _clearLoaded' := _clearLoaded' p;
     _stream' := _stream' p; _errorStream := _errorStream p;
     _metrics := _metrics p; _abrManager := _abrManager p;
     _fullscreen' := _fullscreen' p; _createPipelines := _createPipelines p;
     videoElement := videoElement p; adaptive := adaptive p;
     effects := effects p |}.

Definition set_manifest (v : option Manifest) (p : t) : t :=
  {| state := state p; _manifest := v;
     _languageManager := _languageManager p;
     _currentRepresentations := _currentRepresentations p;
     _currentAdaptations := _currentAdaptations p;
     _recordedEvents := _recordedEvents p; _timeFragment := _timeFragment p;
     _fatalError := _fatalError p;
     _currentImagePlaylist := _currentImagePlaylist p;
     _playing' := _playing' p; _clearLoaded' := _clearLoaded' p;
     _stream' := _stream' p; _errorStream := _errorStream p;
     _metrics := _metrics p; _abrManager := _abrManager p;
     _fullscreen' := _fullscreen' p; _createPipelines := _createPipelines p;
     videoElement := videoElement p; adaptive := adaptive p;
     effects := effects p |}.

Definition set_languageManager (v : option LanguageManager) (p : t) : t :=
  {| state := state p; _manifest := _manifest p; _languageManager := v;
     _currentRepresentations := _currentRepresentations p;
     _currentAdaptations := _currentAdaptations p;
     _recordedEvents := _recordedEvents p; _timeFragment := _timeFragment p;
     _fatalError := _fatalError p;
     _currentImagePlaylist := _currentImagePlaylist p;
     _playing' := _playing' p; _clearLoaded' := _clearLoaded' p;
     _stream' := _stream' p; _errorStream := _errorStream p;
     _metrics := _metrics p; _abrManager := _abrManager p;
     _fullscreen' := _fullscreen' p; _createPipelines := _createPipelines p;
     videoElement := videoElement p; adaptive := adaptive p;
     effects := effects p |}.

Definition set_currentRepresentations
    (v : gmap string (option Representation)) (p : t) : t :=
  {| state := state p; _manifest := _manifest p;
     _languageManager := _languageManager p; _currentRepresentations := v;
     _currentAdaptations := _currentAdaptations p;
     _recordedEvents := _recordedEvents p; _timeFragment := _timeFragment p;
     _fatalError := _fatalError p;
     _currentImagePlaylist := _currentImagePlaylist p;
     _playing' := _playing' p; _clearLoaded' := _clearLoaded' p;
     _stream' := _stream' p; _errorStream := _errorStream p;
     _metrics := _metrics p; _abrManager := _abrManager p;
     _fullscreen' := _fullscreen' p; _createPipelines := _createPipelines p;
     videoElement := videoElement p; adaptive := adaptive p;
     effects := effects p |}.

Definition set_currentAdaptations
    (v : gmap string (option Adaptation)) (p : t) : t :=
  {| state := state p; _manifest := _manifest p;
     _languageManager := _languageManager p;
     _currentRepresentations := _currentRepresentations p;
     _currentAdaptations := v; _recordedEvents := _recordedEvents p;
     _timeFragment := _timeFragment p; _fatalError := _fatalError p;
     _currentImagePlaylist := _currentImagePlaylist p;
     _playing' := _playing' p; _clearLoaded' := _clearLoaded' p;
     _stream' := _stream' p; _errorStream := _errorStream p;
     _metrics := _metrics p; _abrManager := _abrManager p;
     _fullscreen' := _fullscreen' p; _createPipelines := _createPipelines p;
     videoElement := videoElement p; adaptive := adaptive p;
     effects := effects p |}.

Definition set_recordedEvents (v : gmap string JS.number) (p : t) : t :=
  {| state := state p; _manifest := _manifest p;
     _languageManager := _languageManager p;
     _currentRepresentations := _currentRepresentations p;
     _currentAdaptations := _currentAdaptations p; _recordedEvents := v;
     _timeFragment := _timeFragment p; _fatalError := _fatalError p;
     _currentImagePlaylist := _currentImagePlaylist p;
     _playing' := _playing' p; _clearLoaded' := _clearLoaded' p;
     _stream' := _stream' p; _errorStream := _errorStream p;
     _metrics := _metrics p; _abrManager := _abrManager p;
     _fullscreen' := _fullscreen' p; _createPipelines := _createPipelines p;
     videoElement := videoElement p; adaptive := adaptive p;
     effects := effects p |}.

Definition set_timeFragment (v : TimeFragment) (p : t) : t :=
  {| state := state p; _manifest := _manifest p;
     _languageManager := _languageManager p;
     _currentRepresentations := _currentRepresentations p;
     _currentAdaptations := _currentAdaptations p;
     _recordedEvents := _recordedEvents p; _timeFragment := v;
     _fatalError := _fatalError p;
     _currentImagePlaylist := _currentImagePlaylist p;
     _playing' := _playing' p; _clearLoaded' := _clearLoaded' p;
     _stream' := _stream' p; _errorStream := _errorStream p;
     _metrics := _metrics p; _abrManager := _abrManager p;
     _fullscreen' := _fullscreen' p; _createPipelines := _createPipelines p;
     videoElement := videoElement p; adaptive := adaptive p;
     effects := effects p |}.

Definition set_fatalError (v : option ErrorObject) (p : t) : t :=
  {| state := state p; _manifest := _manifest p;
     _languageManager := _languageManager p;
     _currentRepresentations := _currentRepresentations p;
     _currentAdaptations := _currentAdaptations p;
     _recordedEvents := _recordedEvents p; _timeFragment := _timeFragment p;
     _fatalError := v; _currentImagePlaylist := _currentImagePlaylist p;
     _playing' := _playing' p; _clearLoaded' := _clearLoaded' p;
     _stream' := _stream' p; _errorStream := _errorStream p;
     _metrics := _metrics p; _abrManager := _abrManager p;
     _fullscreen' := _fullscreen' p; _createPipelines := _createPipelines p;
     videoElement := videoElement p; adaptive := adaptive p;
     effects := effects p |}.

Definition set_currentImagePlaylist (v : option string) (p : t) : t :=
  {| state := state p; _manifest := _manifest p;
     _languageManager := _languageManager p;
     _currentRepresentations := _currentRepresentations p;
     _currentAdaptations := _currentAdaptations p;
     _recordedEvents := _recordedEvents p; _timeFragment := _timeFragment p;
     _fatalError := _fatalError p; _currentImagePlaylist := v;
     _playing' := _playing' p; _clearLoaded' := _clearLoaded' p;
     _stream' := _stream' p; _errorStream := _errorStream p;
     _metrics := _metrics p; _abrManager := _abrManager p;
     _fullscreen' := _fullscreen' p; _createPipelines := _createPipelines p;
     videoElement := videoElement p; adaptive := adaptive p;
     effects := effects p |}.

Definition set_playing' (v : option bool) (p : t) : t :=
  {| state := state p; _manifest := _manifest p;
     _languageManager := _languageManager p;
     _currentRepresentations := _currentRepresentations p;
     _currentAdaptations := _currentAdaptations p;
     _recordedEvents := _recordedEvents p; _timeFragment := _timeFragment p;
     _fatalError := _fatalError p;
     _currentImagePlaylist := _currentImagePlaylist p; _playing' := v;
     _clearLoaded' := _clearLoaded' p; _stream' := _stream' p;
     _errorStream := _errorStream p; _metrics := _metrics p;
     _abrManager := _abrManager p; _fullscreen' := _fullscreen' p;
     _createPipelines := _createPipelines p; videoElement := videoElement p;
     adaptive := adaptive p; effects := effects p |}.

Definition set_clearLoaded' (v : option Subject) (p : t) : t :=
  {| state := state p; _manifest := _manifest p;
     _languageManager := _languageManager p;
     _currentRepresentations := _currentRepresentations p;
     _currentAdaptations := _currentAdaptations p;
     _recordedEvents := _recordedEvents p; _timeFragment := _timeFragment p;
     _fatalError := _fatalError p;
     _currentImagePlaylist := _currentImagePlaylist p;
     _playing' := _playing' p; _clearLoaded' := v; _stream' := _stream' p;
     _errorStream := _errorStream p; _metrics := _metrics p;
     _abrManager := _abrManager p; _fullscreen' := _fullscreen' p;
     _createPipelines := _createPipelines p; videoElement := videoElement p;
     adaptive := adaptive p; effects := effects p |}.

Definition set_stream' (v : option Subject) (p : t) : t :=
  {| state := state p; _manifest := _manifest p;
     _languageManager := _languageManager p;
     _currentRepresentations := _currentRepresentations p;
     _currentAdaptations := _currentAdaptations p;
     _recordedEvents := _recordedEvents p; _timeFragment := _timeFragment p;
     _fatalError := _fatalError p;
     _currentImagePlaylist := _currentImagePlaylist p;
     _playing' := _playing' p; _clearLoaded' := _clearLoaded' p;
     _stream' := v; _errorStream := _errorStream p; _metrics := _metrics p;
     _abrManager := _abrManager p; _fullscreen' := _fullscreen' p;
     _createPipelines := _createPipelines p; videoElement := videoElement p;
     adaptive := adaptive p; effects := effects p |}.

Definition set_errorStream (v : option Subject) (p : t) : t :=
  {| state := state p; _manifest := _manifest p;
     _languageManager := _languageManager p;
     _currentRepresentations := _currentRepresentations p;
     _currentAdaptations := _currentAdaptations p;
     _recordedEvents := _recordedEvents p; _timeFragment := _timeFragment p;
     _fatalError := _fatalError p;
     _currentImagePlaylist := _currentImagePlaylist p;
     _playing' := _playing' p; _clearLoaded' := _clearLoaded' p;
     _stream' := _stream' p; _errorStream := v; _metrics := _metrics p;
     _abrManager := _abrManager p; _fullscreen' := _fullscreen' p;
     _createPipelines := _createPipelines p; videoElement := videoElement p;
     adaptive := adaptive p; effects := effects p |}.

Definition set_metrics (v : option Metrics) (p : t) : t :=
  {| state := state p; _manifest := _manifest p;
     _languageManager := _languageManager p;
     _currentRepresentations := _currentRepresentations p;
     _currentAdaptations := _currentAdaptations p;
     _recordedEvents := _recordedEvents p; _timeFragment := _timeFragment p;
     _fatalError := _fatalError p;
     _currentImagePlaylist := _currentImagePlaylist p;
     _playing' := _playing' p; _clearLoaded' := _clearLoaded' p;
     _stream' := _stream' p; _errorStream := _errorStream p; _metrics := v;
     _abrManager := _abrManager p; _fullscreen' := _fullscreen' p;
     _createPipelines := _createPipelines p; videoElement := videoElement p;
     adaptive := adaptive p; effects := effects p |}.

Definition set_abrManager (v : option AbrManager) (p : t) : t :=
  {| state := state p; _manifest := _manifest p;
     _languageManager := _languageManager p;
     _currentRepresentations := _currentRepresentations p;
     _currentAdaptations := _currentAdaptations p;
     _recordedEvents := _recordedEvents p; _timeFragment := _timeFragment p;
     _fatalError := _fatalError p;
     _currentImagePlaylist := _currentImagePlaylist p;
     _playing' := _playing' p; _clearLoaded' := _clearLoaded' p;
     _stream' := _stream' p; _errorStream := _errorStream p;
     _metrics := _metrics p; _abrManager := v;
     _fullscreen' := _fullscreen' p; _createPipelines := _createPipelines p;
     videoElement := videoElement p; adaptive := adaptive p;
     effects := effects p |}.

Definition set_fullscreen' (v : option Subscription) (p : t) : t :=
  {| state := state p; _manifest := _manifest p;
     _languageManager := _languageManager p;
     _currentRepresentations := _currentRepresentations p;
     _currentAdaptations := _currentAdaptations p;
     _recordedEvents := _recordedEvents p; _timeFragment := _timeFragment p;
     _fatalError := _fatalError p;
     _currentImagePlaylist := _currentImagePlaylist p;
     _playing' := _playing' p; _clearLoaded' := _clearLoaded' p;
     _stream' := _stream' p; _errorStream := _errorStream p;
     _metrics := _metrics p; _abrManager := _abrManager p; _fullscreen' := v;
     _createPipelines := _createPipelines p; videoElement := videoElement p;
     adaptive := adaptive p; effects := effects p |}.

Definition set_createPipelines (v : option CreatePipelines) (p : t) : t :=
  {| state := state p; _manifest := _manifest p;
     _languageManager := _languageManager p;
     _currentRepresentations := _currentRepresentations p;
     _currentAdaptations := _currentAdaptations p;
     _recordedEvents := _recordedEvents p; _timeFragment := _timeFragment p;
     _fatalError := _fatalError p;
     _currentImagePlaylist := _currentImagePlaylist p;
     _playing' := _playing' p; _clearLoaded' := _clearLoaded' p;
     _stream' := _stream' p; _errorStream := _errorStream p;
     _metrics := _metrics p; _abrManager := _abrManager p;
     _fullscreen' := _fullscreen' p; _createPipelines := v;
     videoElement := videoElement p; adaptive := adaptive p;
     effects := effects p |}.

Definition set_videoElement (v : option HTMLVideoElement) (p : t) : t :=
  {| state := state p; _manifest := _manifest p;
     _languageManager := _languageManager p;
     _currentRepresentations := _currentRepresentations p;
     _currentAdaptations := _currentAdaptations p;
     _recordedEvents := _recordedEvents p; _timeFragment := _timeFragment p;
     _fatalError := _fatalError p;
     _currentImagePlaylist := _currentImagePlaylist p;
     _playing' := _playing' p; _clearLoaded' := _clearLoaded' p;
     _stream' := _stream' p; _errorStream := _errorStream p;
     _metrics := _metrics p; _abrManager := _abrManager p;
     _fullscreen' := _fullscreen' p; _createPipelines := _createPipelines p;
     videoElement := v; adaptive := adaptive p; effects := effects p |}.

Definition set_adaptive (v : option AbrManager) (p : t) : t :=
  {| state := state p; _manifest := _manifest p;
     _languageManager := _languageManager p;
     _currentRepresentations := _currentRepresentations p;
     _currentAdaptations := _currentAdaptations p;
     _recordedEvents := _recordedEvents p; _timeFragment := _timeFragment p;
     _fatalError := _fatalError p;
     _currentImagePlaylist := _currentImagePlaylist p;
     _playing' := _playing' p; _clearLoaded' := _clearLoaded' p;
     _stream' := _stream' p; _errorStream := _errorStream p;
     _metrics := _metrics p; _abrManager := _abrManager p;
     _fullscreen' := _fullscreen' p; _createPipelines := _createPipelines p;
     videoElement := videoElement p; adaptive := v; effects := effects p |}.

Definition set_effects (v : list Effect) (p : t) : t :=
  {| state := state p; _manifest := _manifest p;
     _languageManager := _languageManager p;
     _currentRepresentations := _currentRepresentations p;
     _currentAdaptations := _currentAdaptations p;
     _recordedEvents := _recordedEvents p; _timeFragment := _timeFragment p;
     _fatalError := _fatalError p;
     _currentImagePlaylist := _currentImagePlaylist p;
     _playing' := _playing' p; _clearLoaded' := _clearLoaded' p;
     _stream' := _stream' p; _errorStream := _errorStream p;
     _metrics := _metrics p; _abrManager := _abrManager p;
     _fullscreen' := _fullscreen' p; _createPipelines := _createPipelines p;
     videoElement := videoElement p; adaptive := adaptive p; effects := v |}.

(** *** Methods *)

(** The build flag [__DEV__]. *)
Class Build := { __DEV__ : bool }.

(** The options of [loadVideo] as [parseLoadVideoOptions] returns them;
    only the two the player stores in its own fields are kept. *)
Record LoadVideoOptions := {
  timeFragment : TimeFragment;
  autoPlay : bool
}.

Section Methods.

Context {build : Build}.

(** Truthiness of a field holding an object, [null] or [undefined]. *)
Definition truthy {A} (o : option A) : bool :=
  match o with Some _ => true | None => false end.

Definition emit (e : Effect) : M unit :=
  update (fun p => set_effects (effects p ++ [e]) p).

(** [this.trigger(event, payload)], inherited from [EventEmitter]. *)
Definition trigger (event : string) (payload : Payload) : M unit :=
  emit (Trigger event payload).

(** [this._clearLoaded$.next()] *)
Definition clearLoaded_next : M unit :=
  _ <- deref _clearLoaded' "_clearLoaded$" ;; emit ClearLoadedNext.

(** [assertManifest(player)] *)
Definition assertManifest : M unit :=
  p <- this ;; assert (truthy (_manifest p)) "player: no manifest loaded".

(** [_setPlayerState(s)]; the call to [log.info] is left out. *)
Definition _setPlayerState (s : PlayerState) : M unit :=
  p <- this ;;
  when (negb (bool_decide (state p = Some s)))
    (update (set_state (Some s)) ;;
     trigger "playerStateChange" (PPlayerState s)).

(** [{ video: null, audio: null, text: null, images: null }] *)
Definition noTracks {A} : gmap string (option A) :=
  <["video" := None]> (<["audio" := None]> (<["text" := None]>
    (<["images" := None]> ∅))).

(** [_resetContentState()] *)
Definition _resetContentState : M unit :=
  update (set_manifest None) ;;
  update (set_languageManager None) ;;
  update (set_currentRepresentations noTracks) ;;
  update (set_currentAdaptations noTracks) ;;
  update (set_recordedEvents ∅) ;;
  update (set_timeFragment {| start := None; end_ := None |}) ;;
  update (set_fatalError None) ;;
  emit (ImageTrackNext None) ;;
  update (set_currentImagePlaylist None).

(** [stop()] *)
Definition stop : M unit :=
  p <- this ;;
  when (negb (bool_decide (state p = Some PLAYER_STOPPED)))
    (_resetContentState ;;
     clearLoaded_next ;;
     _setPlayerState PLAYER_STOPPED).

(** [dispose()] *)
Definition dispose : M unit :=
  stop ;;
  _ <- deref _clearLoaded' "_clearLoaded$" ;; emit ClearLoadedComplete ;;
  _ <- deref _metrics "_metrics" ;; emit (Unsubscribe R_metrics) ;;
  _ <- deref _abrManager "_abrManager" ;; emit (Unsubscribe R_abrManager) ;;
  _ <- deref _fullscreen' "_fullscreen$" ;; emit (Unsubscribe R_fullscreen) ;;
  _ <- deref _stream' "_stream$" ;; emit (Unsubscribe R_stream) ;;
  _ <- deref _errorStream "_errorStream" ;; emit (Unsubscribe R_errorStream) ;;
  emit EmeDispose ;;
  update (set_clearLoaded' None) ;;
  update (set_metrics None) ;;
  update (set_abrManager None) ;;
  update (set_fullscreen' None) ;;
  update (set_stream' None) ;;
  update (set_errorStream None) ;;
  update (set_createPipelines None) ;;
  update (set_videoElement None).

(** [_recordState(type, value)]; a missing key reads as [undefined], which
    differs from every number. *)
Definition _recordState (type : string) (value : JS.number) : M unit :=
  p <- this ;;
  let prev := _recordedEvents p !! type in
  when (match prev with
        | None => true
        | Some prev => JS.strict_neq prev value
        end)
    (update (set_recordedEvents (<[type := value]> (_recordedEvents p))) ;;
     trigger (type ++ "Change") (PNumber value)).

(** [_triggerTimeChange()] as [loadVideo] calls it, without argument:
    [!t] holds and the empty timings are emitted. *)
Definition _triggerTimeChange_undefined : M unit :=
  trigger "currentTimeChange" PEmptyTimings.

(** [loadVideo(options)], from [this.stop()] on, [options] being what
    [parseLoadVideoOptions] returned.  What the observables subscribed to
    emit is delivered by later calls of the handlers; the one emission
    that is part of the subscription itself is the [PLAYER_LOADING] that
    [stateChanges] starts with. *)
Definition loadVideo (options : LoadVideoOptions) : M unit :=
  stop ;;
  update (set_timeFragment (timeFragment options)) ;;
  update (set_playing' (Some (autoPlay options))) ;;
  p <- this ;;
  let adaptive := _abrManager p in
  _ <- deref _createPipelines "_createPipelines" ;;
  _ <- deref videoElement "videoElement" ;;
  _ <- deref _clearLoaded' "_clearLoaded$" ;;
  _setPlayerState PLAYER_LOADING ;;
  _ <- deref _errorStream "_errorStream" ;;
  emit (StreamConnect adaptive) ;;
  _triggerTimeChange_undefined.

(** The four handlers end with the same statements:
    [if (this._stream$) { this._stream$.next(x); } this._stream$.next(x);] *)
Definition forwardToStream (x : StreamInfos) : M unit :=
  p <- this ;;
  when (truthy (_stream' p)) (emit (StreamNext x)) ;;
  _ <- deref _stream' "_stream$" ;; emit (StreamNext x).

(** [_addLanguageSubscriptions()] *)
Definition _addLanguageSubscriptions : M unit :=
  p <- this ;;
  assert (truthy (_languageManager p)) "no languageManager received" ;;
  lm <- deref _languageManager "_languageManager" ;;
  emit (LanguageSubscriptions lm).

(** [_onManifestNext(value)] *)
Definition _onManifestNext (value : ManifestValue) : M unit :=
  when __DEV__
    (assert (truthy (manifest value)) "no manifest received" ;;
     assert (truthy (languageManager value)) "no languageManager received") ;;
  update (set_manifest (manifest value)) ;;
  update (set_languageManager (languageManager value)) ;;
  trigger "manifestChange" (PManifest (manifest value)) ;;
  _addLanguageSubscriptions.

(** [_onManifestUpdateNext(value)] *)
Definition _onManifestUpdateNext (value : ManifestValue) : M unit :=
  when __DEV__
    (assert (truthy (manifest value)) "no manifest received") ;;
  update (set_manifest (manifest value)) ;;
  trigger "manifestUpdate" (PManifest (manifest value)).

(** [representation && representation.bitrate || -1] *)
Definition bitrateOrMinusOne (representation : option Representation)
    : JS.number :=
  match representation with
  | None => (-1)%float
  | Some r => if JS.truthy (bitrate r) then bitrate r else (-1)%float
  end.

(** [_onBufferNext({ bufferType, adaptation, representation })] *)
Definition _onBufferNext (value : BufferValue) : M unit :=
  p <- this ;;
  update (set_currentRepresentations
            (<[bufferType value := representation value]>
               (_currentRepresentations p))) ;;
  update (set_currentAdaptations
            (<[bufferType value := adaptation value]>
               (_currentAdaptations p))) ;;
  when (String.eqb (bufferType value) "video")
    (_recordState "videoBitrate"
       (bitrateOrMinusOne (representation value))) ;;
  when (String.eqb (bufferType value) "audio")
    (_recordState "audioBitrate"
       (bitrateOrMinusOne (representation value))).

(** [_onStreamNext(streamInfos)] *)
Definition _onStreamNext (streamInfos : StreamInfos) : M unit :=
  match streamInfos with
  | SBuffer value => _onBufferNext value
  | SManifest value => _onManifestNext value
  | SManifestUpdate value => _onManifestUpdateNext value
  | SPipeline value =>
      trigger "progress" (PSegment (pipelineSegment value)) ;;
      when (String.eqb (pipelineBufferType value) "image")
        match parsed value with
        | None => throw (TypeError "parsed")
        | Some parsed =>
            update (set_currentImagePlaylist (Some (segmentData parsed))) ;;
            q <- this ;;
            trigger "imageTrackUpdate"
              (PImageTrack (_currentImagePlaylist q)) ;;
            emit (ImageTrackNext (Some (segmentData parsed)))
        end
  | _ => ret tt
  end ;;
  forwardToStream streamInfos.

(** [_onErrorStreamNext(error)] *)
Definition _onErrorStreamNext (error : ErrorObject) : M unit :=
  trigger "warning" (PError error) ;;
  forwardToStream (SWarning error).

(** [_onStreamError(error)] *)
Definition _onStreamError (error : ErrorObject) : M unit :=
  _resetContentState ;;
  update (set_fatalError (Some error)) ;;
  _setPlayerState PLAYER_STOPPED ;;
  clearLoaded_next ;;
  trigger "error" (PError error) ;;
  forwardToStream (SError error).

(** [_onStreamComplete()] *)
Definition _onStreamComplete : M unit :=
  _resetContentState ;;
  _setPlayerState PLAYER_ENDED ;;
  clearLoaded_next ;;
  forwardToStream SEnded.

(** The callbacks [loadVideo] subscribes to the Stream and to the error
    stream. *)
Inductive StreamCallback :=
| OnNext (x : StreamInfos)
| OnError (err : ErrorObject)
| OnComplete
| OnErrorStreamNext (x : ErrorObject).

Definition deliver (cb : StreamCallback) : M unit :=
  match cb with
  | OnNext x => _onStreamNext x
  | OnError err => _onStreamError err
  | OnComplete => _onStreamComplete
  | OnErrorStreamNext x => _onErrorStreamNext x
  end.

(** The object each callback hands to [_stream$]. *)
Definition forwarded (cb : StreamCallback) : StreamInfos :=
  match cb with
  | OnNext x => x
  | OnError err => SError err
  | OnComplete => SEnded
  | OnErrorStreamNext x => SWarning x
  end.

(** [getError()] *)
Definition getError : M (option ErrorObject) :=
  p <- this ;; ret (_fatalError p).

(** [getPlayerState()] *)
Definition getPlayerState : M (option PlayerState) :=
  p <- this ;; ret (state p).

(** [getVideoBitrate()] and [getAudioBitrate()] *)
Definition getVideoBitrate : M (option JS.number) :=
  p <- this ;; ret (_recordedEvents p !! "videoBitrate").

Definition getAudioBitrate : M (option JS.number) :=
  p <- this ;; ret (_recordedEvents p !! "audioBitrate").

(** [this._currentAdaptations[type] &&
     this._currentAdaptations[type].getAvailableBitrates() || []] *)
Definition availableBitrates (type : string) : M (list JS.number) :=
  p <- this ;;
  ret match _currentAdaptations p !! type with
      | Some (Some a) => getAvailableBitrates a
      | _ => []
      end.

Definition getAvailableVideoBitrates : M (list JS.number) :=
  availableBitrates "video".

Definition getAvailableAudioBitrates : M (list JS.number) :=
  availableBitrates "audio".

(** [bitrates.indexOf(btr) >= 0]; [indexOf] compares with [===]. *)
Definition includes (btr : JS.number) (bitrates : list JS.number) : bool :=
  existsb (fun b => PrimFloat.eqb b btr) bitrates.

(** [setVideoBitrate(btr)] *)
Definition setVideoBitrate (btr : JS.number) : M unit :=
  assertManifest ;;
  bitrates <- getAvailableVideoBitrates ;;
  assert (PrimFloat.eqb btr 0 || includes btr bitrates)
    "player: video bitrate unavailable" ;;
  abr <- deref _abrManager "_abrManager" ;;
  update (set_abrManager (Some (Abr_setVideoBitrate btr abr))).

(** [setAudioBitrate(btr)] *)
Definition setAudioBitrate (btr : JS.number) : M unit :=
  assertManifest ;;
  bitrates <- getAvailableAudioBitrates ;;
  assert (PrimFloat.eqb btr 0 || includes btr bitrates)
    "player: audio bitrate unavailable" ;;
  abr <- deref _abrManager "_abrManager" ;;
  update (set_abrManager (Some (Abr_setAudioBitrate btr abr))).

(** [setMaxVideoBitrate(btr)] *)
Definition setMaxVideoBitrate (btr : JS.number) : M unit :=
  abr <- deref _abrManager "_abrManager" ;;
  update (set_abrManager (Some (Abr_setVideoMaxBitrate btr abr))).

(** [setMaxAudioBitrate(btr)] *)
Definition setMaxAudioBitrate (btr : JS.number) : M unit :=
  abr <- deref _abrManager "_abrManager" ;;
  update (set_abrManager (Some (Abr_setAudioMaxBitrate btr abr))).

(** [getMaxVideoBitrate()] *)
Definition getMaxVideoBitrate : M JS.number :=
  abr <- deref _abrManager "_abrManager" ;;
  ret (Abr_getVideoMaxBitrate abr).

(** [getMaxAudioBitrate()] *)
Definition getMaxAudioBitrate : M JS.number :=
  abr <- deref _abrManager "_abrManager" ;;
  ret (Abr_getAudioMaxBitrate abr).

(** [setWantedBufferAhead], [setMaxBufferAhead] and [setMaxBufferBehind]
    go through [this.adaptive], a property no method of the class
    assigns. *)
Definition setWantedBufferAhead (sizeInSeconds : JS.number) : M unit :=
  a <- deref adaptive "adaptive" ;;
  update (set_adaptive (Some (Abr_setWantedBufferAhead sizeInSeconds a))).

Definition setMaxBufferAhead (depthInSeconds : JS.number) : M unit :=
  a <- deref adaptive "adaptive" ;;
  update (set_adaptive (Some (Abr_setMaxBufferAhead depthInSeconds a))).

Definition setMaxBufferBehind (depthInSeconds : JS.number) : M unit :=
  a <- deref adaptive "adaptive" ;;
  update (set_adaptive (Some (Abr_setMaxBufferBehind depthInSeconds a))).

(** The fields as the [constructor] has assigned them when it reaches its
    last two statements; [abr] is what [Adaptive(...)] returned. *)
Definition constructed (abr : AbrManager) : t :=
  {| state := None;
     _manifest := None;
     _languageManager := None;
     _currentRepresentations := ∅;
     _currentAdaptations := ∅;
     _recordedEvents := ∅;
     _timeFragment := {| start := None; end_ := None |};
     _fatalError := None;
     _currentImagePlaylist := None;
     _playing' := None;
     _clearLoaded' := Some a_subject;
     _stream' := Some a_subject;
     _errorStream := Some a_subject;
     _metrics := Some the_metrics;
     _abrManager := Some abr;
     _fullscreen' := Some a_subscription;
     _createPipelines := Some the_createPipelines;
     videoElement := Some the_videoElement;
     adaptive := None;
     effects := [] |}.

(** [new Player(options)]: the constructor ends with
    [this._setPlayerState(PLAYER_STOPPED); this._resetContentState();]. *)
Definition new (abr : AbrManager) : t :=
  exec (_setPlayerState PLAYER_STOPPED ;; _resetContentState)
       (constructed abr).

(** The part of the [effects] that went to the [_stream$] bus. *)
Definition streamBus (es : list Effect) : list StreamInfos :=
  omap (fun e => match e with StreamNext x => Some x | _ => None end) es.

(** The values emitted with a given [...Change] event. *)
Definition emitted (event : string) (es : list Effect) : list JS.number :=
  omap (fun e => match e with
                 | Trigger ev (PNumber n) =>
                     if String.eqb ev event then Some n else None
                 | _ => None
                 end) es.

(** A run of buffer events. *)
Fixpoint onBufferEvents (values : list BufferValue) : M unit :=
  match values with
  | [] => ret tt
  | value :: rest => _onBufferNext value ;; onBufferEvents rest
  end.

(** [inferPlayerState(isPlaying, stalled)]; [stalled] is [null] or an
    object with a [name]. *)
Record Stalled := { stalledName : string }.

Definition inferPlayerState (isPlaying : bool) (stalled : option Stalled)
    : PlayerState :=
  match stalled with
  | Some stalled =>
      if String.eqb (stalledName stalled) "seeking"
      then PLAYER_SEEKING
      else PLAYER_BUFFERING
  | None => if isPlaying then PLAYER_PLAYING else PLAYER_PAUSED
  end.

(** [getManifest()]: [this._manifest || null] *)
Definition getManifest : M (option Manifest) :=
  p <- this ;; ret (_manifest p).

(** [getCurrentAdaptations()] and [getCurrentRepresentations()] *)
Definition getCurrentAdaptations
    : M (option (gmap string (option Adaptation))) :=
  p <- this ;;
  if negb (truthy (_manifest p)) then ret None
  else ret (Some (_currentAdaptations p)).

Definition getCurrentRepresentations
    : M (option (gmap string (option Representation))) :=
  p <- this ;;
  if negb (truthy (_manifest p)) then ret None
  else ret (Some (_currentRepresentations p)).

(** [getImageTrackData()] *)
Definition getImageTrackData : M (option string) :=
  p <- this ;;
  if negb (truthy (_manifest p)) then ret None
  else ret (_currentImagePlaylist p).

(** [getStartTime()] and [getEndTime()] *)
Definition getStartTime : M (option JS.number) :=
  p <- this ;; ret (start (_timeFragment p)).

Definition getEndTime : M (option JS.number) :=
  p <- this ;; ret (end_ (_timeFragment p)).

(** [isLive()] *)
Definition isLive_ : M bool :=
  assertManifest ;;
  m <- deref _manifest "_manifest" ;;
  ret (isLive m).

(** [getUrl()]; [manifestUrl] is what [this._manifest.getUrl()] returns. *)
Definition getUrl : M string :=
  assertManifest ;;
  m <- deref _manifest "_manifest" ;;
  ret (manifestUrl m).

(** The calls that reach a player: those of its user, the callbacks of
    the Stream and of the error stream, and the subscriber of
    [stateChanges], [x => this._setPlayerState(x)]. *)
Inductive Call :=
| CallLoadVideo (options : LoadVideoOptions)
| CallStop
| CallDispose
| CallSetVideoBitrate (btr : JS.number)
| CallSetAudioBitrate (btr : JS.number)
| CallSetMaxVideoBitrate (btr : JS.number)
| CallSetMaxAudioBitrate (btr : JS.number)
| CallSetWantedBufferAhead (sizeInSeconds : JS.number)
| CallSetMaxBufferAhead (depthInSeconds : JS.number)
| CallSetMaxBufferBehind (depthInSeconds : JS.number)
| CallStream (cb : StreamCallback)
| CallStateChange (x : PlayerState).

Definition perform (c : Call) : M unit :=
  match c with
  | CallLoadVideo options => loadVideo options
  | CallStop => stop
  | CallDispose => dispose
  | CallSetVideoBitrate btr => setVideoBitrate btr
  | CallSetAudioBitrate btr => setAudioBitrate btr
  | CallSetMaxVideoBitrate btr => setMaxVideoBitrate btr
  | CallSetMaxAudioBitrate btr => setMaxAudioBitrate btr
  | CallSetWantedBufferAhead x => setWantedBufferAhead x
  | CallSetMaxBufferAhead x => setMaxBufferAhead x
  | CallSetMaxBufferBehind x => setMaxBufferBehind x
  | CallStream cb => deliver cb
  | CallStateChange x => _setPlayerState x
  end.

(** A run of calls: each one runs on the fields the one before has left,
    whether that one completed or threw. *)
Definition performAll (calls : list Call) (p : t) : t :=
  fold_left (fun q c => exec (perform c) q) calls p.

(** The states emitted with [playerStateChange]. *)
Definition stateEmitted (es : list Effect) : list PlayerState :=
  omap (fun e => match e with
                 | Trigger ev (PPlayerState s) =>
                     if String.eqb ev "playerStateChange" then Some s
                     else None
                 | _ => None
                 end) es.

End Methods.

End WithAbrManager.

Arguments t AbrManager : clear implicits.
Arguments Effect AbrManager : clear implicits.
Arguments M AbrManager A : clear implicits.

End Player.

(** ** The specification's wording of [getEstimate] *)

Module EstimatorSpec.

Import BandwidthEstimator.

Section Spec.

Context {EWMA : Type} {ewma : EWMA_class EWMA} {config : Config}.

(** [regular = bytesSampled < minTotalBytes ? undefined : min(fast, slow)] *)
Definition regular (s : t EWMA) : option JS.number :=
  if JS.lt (_bytesSampled s) ABR_MINIMUM_TOTAL_BYTES then None
  else Some (JS.Math_min (EWMA_getEstimate (_fastEWMA s))
                         (EWMA_getEstimate (_slowEWMA s))).

(** [lowLat = mean(chunkRing)] when the ring is full, that is, holds 3
    entries; else [undefined]. *)
Definition lowLat (s : t EWMA) : option JS.number :=
  if length (_lowLatencyBandwidthBuffer s) =? 3
  then Some (mean (_lowLatencyBandwidthBuffer s))
  else None.

(** Return [regular] if [¬lowLatencyMode ∨ ¬serverMayLimit]; otherwise
    [max(regular, lowLat)] when both exist, whichever is defined, or
    [undefined]. *)
Definition getEstimate_spec (serverMayLimit : bool) (s : t EWMA)
    : option JS.number :=
  if negb (_lowLatencyMode s) || negb serverMayLimit then regular s
  else
    match regular s, lowLat s with
    | Some r, Some l => Some (JS.Math_max r l)
    | Some r, None => Some r
    | None, Some l => Some l
    | None, None => None
    end.

End Spec.

End EstimatorSpec.

(** ** An instance to evaluate the estimator on *)

Module Instances.

(** An implementation of the [EWMA] interface without decay: the weighted
    mean of the samples, NaN before the first one. *)
Definition meanEWMA : EWMA_class (JS.number * JS.number) :=
  {| EWMA_new := fun _ => (0%float, 0%float);
     EWMA_addSample := fun weight value e =>
       ((fst e + weight * value)%float, (snd e + weight)%float);
     EWMA_getEstimate := fun e => (fst e / snd e)%float |}.

Definition sampleConfig : Config :=
  {| ABR_MINIMUM_TOTAL_BYTES := 150000%float;
     ABR_MINIMUM_CHUNK_SIZE := 16000%float;
     ABR_FAST_EMA := 2%float;
     ABR_SLOW_EMA := 10%float |}.

Definition Estimator : Type := BandwidthEstimator.t (JS.number * JS.number).

Definition newEstimator (lowLatencyMode : bool) : Estimator :=
  @BandwidthEstimator.new _ meanEWMA sampleConfig lowLatencyMode.

Definition feed (samples : list BandwidthEstimator.Sample) (s : Estimator)
    : Estimator :=
  @BandwidthEstimator.addSamples _ meanEWMA sampleConfig samples s.

Definition estimate (flag : bool) (s : Estimator) : option JS.number :=
  @BandwidthEstimator.getEstimate _ meanEWMA sampleConfig flag s.

(** A chunk of 20000 bytes received in 40 ms: 4 Mbit/s. *)
Definition chunk4M : BandwidthEstimator.Sample :=
  {| BandwidthEstimator.durationInMs := 40%float;
     BandwidthEstimator.numberOfBytes := 20000%float;
     BandwidthEstimator.isChunk := true |}.

(** A chunk of 18000 bytes received in 40 ms: 3.6 Mbit/s. *)
Definition chunk3600k : BandwidthEstimator.Sample :=
  {| BandwidthEstimator.durationInMs := 40%float;
     BandwidthEstimator.numberOfBytes := 18000%float;
     BandwidthEstimator.isChunk := true |}.

(** A whole segment of 500000 bytes received in 1 s. *)
Definition segment4M : BandwidthEstimator.Sample :=
  {| BandwidthEstimator.durationInMs := 1000%float;
     BandwidthEstimator.numberOfBytes := 500000%float;
     BandwidthEstimator.isChunk := false |}.

(** The estimator in low-latency mode after three 4 Mbit/s chunks. *)
Definition threeChunks : Estimator :=
  feed [chunk4M; chunk4M; chunk4M] (newEstimator true).

Definition devBuild : Player.Build := {| Player.__DEV__ := true |}.

(** An ABR manager to evaluate the player on: it keeps the calls made to
    its setters, the latest first, and answers a getter with the latest
    value set ([Infinity] for a ceiling never set). *)
Definition CallLog : Type := list (string * JS.number).

Definition latest (setting : string) (calls : CallLog) : JS.number :=
  match List.find (fun c => String.eqb (fst c) setting) calls with
  | Some c => snd c
  | None => infinity
  end.

Definition loggingManager : Adaptive_class CallLog :=
  {| Abr_setVideoBitrate := fun v a => ("videoBitrate", v) :: a;
     Abr_setAudioBitrate := fun v a => ("audioBitrate", v) :: a;
     Abr_setVideoMaxBitrate := fun v a => ("videoMaxBitrate", v) :: a;
     Abr_setAudioMaxBitrate := fun v a => ("audioMaxBitrate", v) :: a;
     Abr_getVideoMaxBitrate := latest "videoMaxBitrate";
     Abr_getAudioMaxBitrate := latest "audioMaxBitrate";
     Abr_setWantedBufferAhead := fun v a => ("wantedBufferAhead", v) :: a;
     Abr_setMaxBufferAhead := fun v a => ("maxBufferAhead", v) :: a;
     Abr_setMaxBufferBehind := fun v a => ("maxBufferBehind", v) :: a |}.

Definition sampleOptions : Player.LoadVideoOptions :=
  {| Player.timeFragment := {| Player.start := None; Player.end_ := None |};
     Player.autoPlay := true |}.

Definition sampleError : Player.ErrorObject :=
  {| Player.message := "PIPELINE_LOAD_ERROR" |}.

(** A fresh player. *)
Definition freshPlayer : Player.t CallLog := Player.new [].

(** A manifest event, and the buffer event of a video representation at
    2 Mbit/s. *)
Definition sampleManifest : Player.ManifestValue :=
  {| Player.manifest :=
       Some {| Player.isLive := false;
               Player.manifestUrl := "https://example.com/manifest.mpd" |};
     Player.languageManager := Some {| Player.languageManagerId := 0 |} |}.

Definition sampleBuffer : Player.BufferValue :=
  {| Player.bufferType := "video";
     Player.adaptation :=
       Some {| Player.getAvailableBitrates :=
                 [1000000%float; 2000000%float] |};
     Player.representation := Some {| Player.bitrate := 2000000%float |} |}.

(** A content is loaded, its manifest and a video buffer event arrive,
    and it starts playing. *)
Definition sampleRun : list Player.Call :=
  [Player.CallLoadVideo sampleOptions;
   Player.CallStream (Player.OnNext (Player.SManifest sampleManifest));
   Player.CallStream (Player.OnNext (Player.SBuffer sampleBuffer));
   Player.CallStateChange Player.PLAYER_LOADED;
   Player.CallStateChange Player.PLAYER_PLAYING].

Definition playingPlayer : Player.t CallLog :=
  @Player.performAll _ loggingManager devBuild sampleRun freshPlayer.

End Instances.

(** ** Predicates on players and on what they emit *)

Module PlayerSpec.

Import Player.

Section WithAbrManager.

Context {AbrManager : Type}.

(** The player holds the eight objects [dispose] releases. *)
Definition holdsResources (p : Player.t AbrManager) : Prop :=
  is_Some (_clearLoaded' p) /\ is_Some (_metrics p) /\
  is_Some (_abrManager p) /\ is_Some (_fullscreen' p) /\
  is_Some (_stream' p) /\ is_Some (_errorStream p) /\
  is_Some (_createPipelines p) /\ is_Some (videoElement p).

(** The eight fields hold [null]. *)
Definition disposed (p : Player.t AbrManager) : Prop :=
  _clearLoaded' p = None /\ _metrics p = None /\ _abrManager p = None /\
  _fullscreen' p = None /\ _stream' p = None /\ _errorStream p = None /\
  _createPipelines p = None /\ videoElement p = None.

(** The stream events a handler processes up to its last statements: a
    manifest event carries a language manager (and a manifest in a [__DEV__]
    build), a pipeline event of an image buffer carries [parsed]. *)
Definition accepted {build : Build} (cb : StreamCallback) : bool :=
  match cb with
  | OnNext (SManifest v) =>
      (negb __DEV__ || truthy (manifest v)) && truthy (languageManager v)
  | OnNext (SManifestUpdate v) => negb __DEV__ || truthy (manifest v)
  | OnNext (SPipeline v) =>
      negb (String.eqb (pipelineBufferType v) "image") || truthy (parsed v)
  | _ => true
  end.

(** [differs prev x]: [x] is not the value recorded before, in the sense of
    [!==] and as a number. *)
Definition differs (prev : option JS.number) (x : JS.number) : Prop :=
  match prev with
  | None => True
  | Some y => JS.strict_neq y x = true /\ y <> x
  end.

(** [changes prev l]: every value of [l] differs from the one before it,
    the first one from [prev]. *)
Fixpoint changes (prev : option JS.number) (l : list JS.number) : Prop :=
  match l with
  | [] => True
  | x :: rest => differs prev x /\ changes (Some x) rest
  end.

(** Any two neighbours of [l] differ. *)
Fixpoint adjacentDiffer (l : list JS.number) : Prop :=
  match l with
  | x :: (y :: _) as rest => differs (Some x) y /\ adjacentDiffer rest
  | _ => True
  end.

(** The value recorded once the values of [l] have been recorded in turn. *)
Definition lastRecorded (prev : option JS.number) (l : list JS.number)
    : option JS.number :=
  fold_left (fun _ x => Some x) l prev.

(** Between [p] and [p'] the effects [new] were added; the values they
    emit with [event] each differ from the value recorded under [key]
    before, and the last of them is the value recorded in [p']. *)
Definition recordedAs (key event : string)
    (p p' : Player.t AbrManager) (new : list (Effect AbrManager)) : Prop :=
  changes (_recordedEvents p !! key) (emitted event new) /\
  _recordedEvents p' !! key
  = lastRecorded (_recordedEvents p !! key) (emitted event new).

End WithAbrManager.

End PlayerSpec.

(** ** Further predicates on players *)

Module PlayerInvariants.

Import Player PlayerSpec.

Section WithAbrManager.

Context {AbrManager : Type}.

(** Any two neighbours of a list of states differ. *)
Fixpoint statesDiffer (l : list PlayerState) : Prop :=
  match l with
  | x :: (y :: _) as rest => x <> y /\ statesDiffer rest
  | _ => True
  end.

(** Every number recorded by [_recordState] is truthy: neither [0] nor
    NaN. *)
Definition recordedTruthy (p : Player.t AbrManager) : Prop :=
  forall (key : string) (v : JS.number),
    _recordedEvents p !! key = Some v -> JS.truthy v = true.

(** [respects R c]: whatever the fields, [R] relates them to the fields
    [c] leaves, whether [c] completes or throws. *)
Definition respects (R : Player.t AbrManager -> Player.t AbrManager -> Prop)
    {A : Type} (c : M AbrManager A) : Prop :=
  forall p, R p (exec c p).

(** [stateChain st l st']: starting from [st], each state of [l] differs
    from the state before it, and [st'] is the last one. *)
Fixpoint stateChain (st : option PlayerState) (l : list PlayerState)
    (st' : option PlayerState) : Prop :=
  match l with
  | [] => st' = st
  | x :: rest => Some x <> st /\ stateChain (Some x) rest st'
  end.

(** Between [p] and [p'] every [playerStateChange] carried a state that
    differs from [this.state] of just before and became [this.state]. *)
Definition tracksState (p p' : Player.t AbrManager) : Prop :=
  exists l,
    stateEmitted (effects p') = stateEmitted (effects p) ++ l /\
    stateChain (state p) l (state p').

(** [this.state] is the state of the last [playerStateChange], and no two
    consecutive [playerStateChange] carry the same state. *)
Definition stateTracked (p : Player.t AbrManager) : Prop :=
  last (stateEmitted (effects p)) = state p /\
  statesDiffer (stateEmitted (effects p)).

(** The eight fields [dispose] sets to [null] are the same in [p] and
    [p'], but for the ABR manager, which may have been given a setting. *)
Definition sameHandles (p p' : Player.t AbrManager) : Prop :=
  _clearLoaded' p' = _clearLoaded' p /\ _metrics p' = _metrics p /\
  (is_Some (_abrManager p') <-> is_Some (_abrManager p)) /\
  _fullscreen' p' = _fullscreen' p /\
  _stream' p' = _stream' p /\ _errorStream p' = _errorStream p /\
  _createPipelines p' = _createPipelines p /\
  videoElement p' = videoElement p.

Definition keepsRecordedTruthy (p p' : Player.t AbrManager) : Prop :=
  recordedTruthy p -> recordedTruthy p'.

(** [this.adaptive], when [undefined], stays so. *)
Definition keepsAdaptiveUndefined (p p' : Player.t AbrManager) : Prop :=
  adaptive p = None -> adaptive p' = None.

(** Between [p] and [p'] the [_stream$] bus received objects two by two,
    each one twice in a row. *)
Definition forwardsInPairs (p p' : Player.t AbrManager) : Prop :=
  exists l : list StreamInfos,
    streamBus (effects p')
    = streamBus (effects p) ++ flat_map (fun x => [x; x]) l.

(** What the getters of the content answer when no content is loaded. *)
Definition reportsNoContent (p : Player.t AbrManager) : Prop :=
  completion getManifest p = Normal None /\
  completion getCurrentAdaptations p = Normal None /\
  completion getCurrentRepresentations p = Normal None /\
  completion getImageTrackData p = Normal None /\
  completion getVideoBitrate p = Normal None /\
  completion getAudioBitrate p = Normal None /\
  completion getAvailableVideoBitrates p = Normal [] /\
  completion getAvailableAudioBitrates p = Normal [] /\
  completion getStartTime p = Normal None /\
  completion getEndTime p = Normal None /\
  completion isLive_ p
  = Throw (AssertionError "player: no manifest loaded") /\
  completion getUrl p
  = Throw (AssertionError "player: no manifest loaded").

End WithAbrManager.

End PlayerInvariants.

(** ** The volume of the player

    [getVolume], [setVolume], [mute] and [unMute] read and write two things
    only, the [volume] of [this.videoElement] and [this._mutedMemory], and
    trigger [volumeChange].  They are embedded on a record of these. *)

Module Volume.

Local Open Scope string_scope.

(** The part of the video element these methods use. *)
Record HTMLMediaElement := { volume : JS.number }.

Inductive Exn :=
| TypeError (what : string)
| IndexSizeError.

(** Assigning [v] to the [volume] of a media element: the element keeps
    [v] when [0 <= v <= 1]; a value that is not finite throws a
    [TypeError], another value out of range an [IndexSizeError]. *)
Definition assignVolume (v : JS.number) : Exn + HTMLMediaElement :=
  if JS.le 0%float v && JS.le v 1%float then inr {| volume := v |}
  else if PrimFloat.is_finite v then inl IndexSizeError
  else inl (TypeError "volume").

Record t := mk {
  videoElement : option HTMLMediaElement;
  _mutedMemory : JS.number;
  triggered : list JS.number   (* the payloads of [volumeChange] *)
}.

(** What a method leaves: the value it returned or the exception it
    threw, and the fields. *)
Definition Outcome (A : Type) : Type := (Exn + A) * t.

(** [new Player()] on a video element: [this._mutedMemory = 0.1]. *)
Definition new (element : HTMLMediaElement) : t :=
  {| videoElement := Some element;
     _mutedMemory := 0.1%float;
     triggered := [] |}.

(** [getVolume()] *)
Definition getVolume (p : t) : Outcome JS.number :=
  match videoElement p with
  | None => (inl (TypeError "videoElement"), p)
  | Some element => (inr (volume element), p)
  end.

(** [setVolume(volume)] *)
Definition setVolume (v : JS.number) (p : t) : Outcome unit :=
  match videoElement p with
  | None => (inl (TypeError "videoElement"), p)
  | Some element =>
      if JS.strict_neq v (volume element) then
        match assignVolume v with
        | inl e => (inl e, p)
        | inr element' =>
            (inr tt,
             {| videoElement := Some element';
                _mutedMemory := _mutedMemory p;
                triggered := triggered p ++ [v] |})
        end
      else (inr tt, p)
  end.

(** [mute()]: [this._mutedMemory = this.getVolume() || 0.1;
    this.setVolume(0);] *)
Definition mute (p : t) : Outcome unit :=
  match getVolume p with
  | (inl e, p') => (inl e, p')
  | (inr vol, p') =>
      setVolume 0%float
        {| videoElement := videoElement p';
           _mutedMemory := if JS.truthy vol then vol else 0.1%float;
           triggered := triggered p' |}
  end.

(** [unMute()] *)
Definition unMute (p : t) : Outcome unit :=
  match getVolume p with
  | (inl e, p') => (inl e, p')
  | (inr vol, p') =>
      if PrimFloat.eqb vol 0%float then setVolume (_mutedMemory p') p'
      else (inr tt, p')
  end.

(** One method after another: the second runs when the first has
    completed. *)
Definition andThen (f g : t -> Outcome unit) (p : t) : Outcome unit :=
  match f p with
  | (inl e, p') => (inl e, p')
  | (inr _, p') => g p'
  end.

(** The volume of the element, when there is one. *)
Definition currentVolume (p : t) : option JS.number :=
  match videoElement p with
  | Some element => Some (volume element)
  | None => None
  end.

(** The element's volume is one the element accepts. *)
Definition inRange (p : t) : Prop :=
  match currentVolume p with
  | Some v => JS.le 0%float v && JS.le v 1%float = true
  | None => False
  end.

(** The calls that change the volume. *)
Inductive Call :=
| CallSetVolume (v : JS.number)
| CallMute
| CallUnMute.

Definition perform (c : Call) : t -> Outcome unit :=
  match c with
  | CallSetVolume v => setVolume v
  | CallMute => mute
  | CallUnMute => unMute
  end.

(** A run of calls: each one runs on the fields the one before has left,
    whether that one completed or threw. *)
Definition performAll (calls : list Call) (p : t) : t :=
  fold_left (fun q c => snd (perform c q)) calls p.

(** Each payload is [!==] to the one before it. *)
Fixpoint payloadsDiffer (l : list JS.number) : Prop :=
  match l with
  | x :: (y :: _) as rest => JS.strict_neq y x = true /\ payloadsDiffer rest
  | _ => True
  end.

(** [_mutedMemory] is a volume an element accepts, and not [0]. *)
Definition memoryUsable (p : t) : Prop :=
  JS.le 0%float (_mutedMemory p) && JS.le (_mutedMemory p) 1%float = true /\
  JS.truthy (_mutedMemory p) = true.

(** The volume and [_mutedMemory] are usable, each [volumeChange] carried
    a value [!==] to the one before it, and the last one carried the
    volume of the element. *)
Definition consistent (p : t) : Prop :=
  inRange p /\ memoryUsable p /\ payloadsDiffer (triggered p) /\
  forall v : JS.number,
    last (triggered p) = Some v -> currentVolume p = Some v.

End Volume.

(** * Properties *)

(** ** Facts about JavaScript numbers *)

Module JSFacts.

Lemma SF_tie (a b : spec_float) :
  SFltb a b = false -> SFltb b a = false ->
  a <> S754_nan -> b <> S754_nan ->
  a = b \/ exists s s', a = S754_zero s /\ b = S754_zero s'.
Proof.
  unfold SFltb.
  destruct a as [s | s | | s m e], b as [s' | s' | | s' m' e']; simpl;
    intros Hab Hba Ha Hb; try congruence;
    try (right; eauto; fail);
    try (destruct s, s'; (discriminate || (left; reflexivity)); fail);
    try (destruct s; discriminate); try (destruct s'; discriminate).
  destruct s, s'; try discriminate;
    destruct (Z.compare_spec e e') as [He | He | He];
    destruct (Z.compare_spec e' e) as [He' | He' | He'];
    try lia; try discriminate;
    subst e';
    change (Pos.compare_cont Eq m m') with (Pos.compare m m') in Hab;
    change (Pos.compare_cont Eq m' m) with (Pos.compare m' m) in Hba;
    destruct (Pos.compare_spec m m'); destruct (Pos.compare_spec m' m);
    try lia; try discriminate; left; congruence.
Qed.

Lemma SF_lt_asym (a b : spec_float) :
  SFltb a b = true -> SFltb b a = false.
Proof.
  unfold SFltb.
  destruct a as [s | s | | s m e], b as [s' | s' | | s' m' e']; simpl;
    intros Hab; try congruence;
    try (destruct s, s'; (discriminate || reflexivity); fail);
    try (destruct s; (discriminate || reflexivity); fail);
    try (destruct s'; (discriminate || reflexivity); fail).
  destruct s, s'; try discriminate; try reflexivity;
    destruct (Z.compare_spec e e') as [He | He | He];
    destruct (Z.compare_spec e' e) as [He' | He' | He'];
    try lia; try discriminate; try reflexivity;
    subst e';
    change (Pos.compare_cont Eq m m') with (Pos.compare m m') in Hab;
    change (Pos.compare_cont Eq m' m) with (Pos.compare m' m);
    destruct (Pos.compare_spec m m'); destruct (Pos.compare_spec m' m);
    try lia; try discriminate; reflexivity.
Qed.

Lemma not_nan (x : float) :
  PrimFloat.is_nan x = false -> Prim2SF x <> S754_nan.
Proof.
  unfold PrimFloat.is_nan. rewrite FloatAxioms.eqb_spec.
  intros H E. rewrite E in H. discriminate.
Qed.

Lemma zero_cases (x : float) (s : bool) :
  Prim2SF x = S754_zero s -> x = if s then neg_zero else zero.
Proof.
  intros H. rewrite <- (SF2Prim_Prim2SF x), H. destruct s; reflexivity.
Qed.

(** Two numbers, none of them NaN and none below the other, are the same
    number or two zeros. *)
Lemma tie (x y : float) :
  PrimFloat.is_nan x = false -> PrimFloat.is_nan y = false ->
  PrimFloat.ltb x y = false -> PrimFloat.ltb y x = false ->
  x = y \/ ((x = zero \/ x = neg_zero) /\ (y = zero \/ y = neg_zero)).
Proof.
  intros Hx Hy Hxy Hyx. rewrite ltb_spec in Hxy, Hyx.
  destruct (SF_tie _ _ Hxy Hyx (not_nan _ Hx) (not_nan _ Hy))
    as [E | (s & s' & E & E')].
  - left. now apply Prim2SF_inj.
  - right. apply zero_cases in E, E'. destruct s, s'; auto.
Qed.

Lemma ltb_asym (x y : float) :
  PrimFloat.ltb x y = true -> PrimFloat.ltb y x = false.
Proof. rewrite !ltb_spec. apply SF_lt_asym. Qed.

(** [Math.max] does not depend on the order of its arguments. *)
Lemma Math_max_comm (x y : JS.number) : JS.Math_max x y = JS.Math_max y x.
Proof.
  unfold JS.Math_max. rewrite (orb_comm (PrimFloat.is_nan y)).
  destruct (PrimFloat.is_nan x) eqn:Hx; [reflexivity |].
  destruct (PrimFloat.is_nan y) eqn:Hy; [reflexivity |]. simpl.
  destruct (PrimFloat.ltb x y) eqn:Hxy.
  - now rewrite (ltb_asym _ _ Hxy).
  - destruct (PrimFloat.ltb y x) eqn:Hyx; [reflexivity |].
    destruct (tie x y Hx Hy Hxy Hyx) as [-> | [[-> | ->] [-> | ->]]];
      reflexivity.
Qed.

(** A number that is not NaN is [===] to itself, so two numbers that are
    [!==] differ as soon as one of them is not NaN. *)
Lemma strict_neq_neq (x y : JS.number) :
  PrimFloat.is_nan x = false -> JS.strict_neq x y = true -> x <> y.
Proof.
  unfold JS.strict_neq, PrimFloat.is_nan. intros Hx H <-.
  destruct (PrimFloat.eqb x x); discriminate.
Qed.

Lemma truthy_not_nan (x : JS.number) :
  JS.truthy x = true -> PrimFloat.is_nan x = false.
Proof.
  unfold JS.truthy. destruct (PrimFloat.is_zero x), (PrimFloat.is_nan x);
    simpl; congruence.
Qed.

End JSFacts.

(** ** The bandwidth estimator *)

Module EstimatorProofs.

Import BandwidthEstimator.

Section Generic.

Context {EWMA : Type} {ewma : EWMA_class EWMA} {config : Config}.

Implicit Types s : BandwidthEstimator.t EWMA.

(** The ring never holds more than three entries. *)
Lemma pushBandwidth_length (buffer : list JS.number) (bw : JS.number) :
  length buffer <= 3 -> length (pushBandwidth buffer bw) <= 3.
Proof.
  unfold pushBandwidth. intros H.
  destruct (Nat.ltb_spec 3 (length (buffer ++ [bw]))) as [Hlt | Hle];
    [| exact Hle].
  destruct buffer as [| x rest]; simpl in *; [lia |].
  rewrite length_app in *. simpl in *. lia.
Qed.

Lemma addSample_buffer_length d n c s :
  length (_lowLatencyBandwidthBuffer s) <= 3 ->
  length (_lowLatencyBandwidthBuffer (addSample d n c s)) <= 3.
Proof.
  intros H. unfold addSample.
  destruct (c && _lowLatencyMode s);
    [destruct (serverLimited _ _) |];
    try destruct (JS.lt n ABR_MINIMUM_CHUNK_SIZE); simpl;
    auto using pushBandwidth_length.
Qed.

Lemma addSamples_buffer_length samples s :
  length (_lowLatencyBandwidthBuffer s) <= 3 ->
  length (_lowLatencyBandwidthBuffer (addSamples samples s)) <= 3.
Proof.
  unfold addSamples. revert s.
  induction samples as [| x samples IH]; intros s H; simpl; [exact H |].
  apply IH, addSample_buffer_length, H.
Qed.

(** Every estimator built by the constructor and fed or reset afterwards
    has a ring of at most three entries. *)
Lemma reachable_buffer_length lowLatencyMode samples :
  length (_lowLatencyBandwidthBuffer
            (addSamples samples (new lowLatencyMode))) <= 3.
Proof. apply addSamples_buffer_length. simpl. lia. Qed.

Lemma reset_buffer_length s :
  length (_lowLatencyBandwidthBuffer (reset s))
  = length (_lowLatencyBandwidthBuffer s).
Proof. reflexivity. Qed.

(** C1, as the code has it.  While [_bytesSampled] is below
    [ABR_MINIMUM_TOTAL_BYTES], [getEstimate] returns [undefined] unless the
    estimator is in low-latency mode and the flag is set: then it returns
    what [getLowLatencyBandwidth] returns, the mean of the chunk ring once
    the ring holds three entries. *)
Theorem getEstimate_below_minimum (flag : bool) s :
  JS.lt (_bytesSampled s) ABR_MINIMUM_TOTAL_BYTES = true ->
  getEstimate flag s
  = if _lowLatencyMode s && flag then getLowLatencyBandwidth s else None.
Proof.
  intros Hlt. unfold getEstimate. rewrite Hlt.
  destruct (_lowLatencyMode s), flag; simpl; try reflexivity.
  now destruct (getLowLatencyBandwidth s).
Qed.


(** C3.  On every estimator whose ring holds at most three entries,
    [getEstimate] computes what the specification words. *)
Theorem getEstimate_meets_spec (serverMayLimit : bool) s :
  length (_lowLatencyBandwidthBuffer s) <= 3 ->
  getEstimate serverMayLimit s
  = EstimatorSpec.getEstimate_spec serverMayLimit s.
Proof.
  intros Hlen. unfold getEstimate, EstimatorSpec.getEstimate_spec.
  destruct (negb (_lowLatencyMode s) || negb serverMayLimit);
    [reflexivity |].
  assert (Hlow : getLowLatencyBandwidth s = EstimatorSpec.lowLat s).
  { unfold getLowLatencyBandwidth, EstimatorSpec.lowLat.
    destruct (Nat.ltb_spec (length (_lowLatencyBandwidthBuffer s)) 3);
      destruct (Nat.eqb_spec (length (_lowLatencyBandwidthBuffer s)) 3);
      try reflexivity; lia. }
  rewrite Hlow. unfold EstimatorSpec.regular.
  destruct (EstimatorSpec.lowLat s) as [l |],
    (JS.lt (_bytesSampled s) ABR_MINIMUM_TOTAL_BYTES);
    try reflexivity.
  now rewrite JSFacts.Math_max_comm.
Qed.

(** C8.  [reset] installs two fresh EWMAs and zeroes [_bytesSampled];
    the chunk ring and the low-latency flag are those of before, and so
    is the low-latency estimate. *)
Theorem reset_keeps_chunk_ring s :
  _fastEWMA (reset s) = EWMA_new ABR_FAST_EMA /\
  _slowEWMA (reset s) = EWMA_new ABR_SLOW_EMA /\
  _bytesSampled (reset s) = 0%float /\
  _lowLatencyBandwidthBuffer (reset s) = _lowLatencyBandwidthBuffer s /\
  _lowLatencyMode (reset s) = _lowLatencyMode s /\
  getLowLatencyBandwidth (reset s) = getLowLatencyBandwidth s.
Proof. repeat split. Qed.

End Generic.

Import Instances.

(** After three chunks of 20000 bytes the estimator has sampled 60000
    bytes, fewer than the 150000 required, and answers 4 Mbit/s. *)
Lemma getEstimate_defined_below_minimum :
  JS.lt (_bytesSampled threeChunks)
        (@ABR_MINIMUM_TOTAL_BYTES sampleConfig) = true /\
  _bytesSampled threeChunks = 60000%float /\
  estimate true threeChunks = Some 4000000%float /\
  ~ (forall (flag : bool) (samples : list Sample),
       JS.lt (_bytesSampled (feed samples (newEstimator true)))
             (@ABR_MINIMUM_TOTAL_BYTES sampleConfig) = true ->
       estimate flag (feed samples (newEstimator true)) = None).
Proof.
  split; [reflexivity |]. split; [reflexivity |]. split; [reflexivity |].
  intros H. specialize (H true [chunk4M; chunk4M; chunk4M] eq_refl).
  discriminate H.
Qed.

Lemma getEstimate_below_minimum_witness :
  JS.lt (_bytesSampled threeChunks)
        (@ABR_MINIMUM_TOTAL_BYTES sampleConfig) = true /\
  estimate false threeChunks = None /\
  estimate true threeChunks = Some 4000000%float.
Proof.
  split; [reflexivity |].
  split.
  - apply (@getEstimate_below_minimum _ meanEWMA sampleConfig false
             threeChunks). reflexivity.
  - reflexivity.
Defined.


Lemma getEstimate_meets_spec_witness :
  length (_lowLatencyBandwidthBuffer (feed [segment4M] threeChunks)) <= 3 /\
  estimate true (feed [segment4M] threeChunks)
  = @EstimatorSpec.getEstimate_spec _ meanEWMA sampleConfig true
      (feed [segment4M] threeChunks).
Proof.
  split; [vm_compute; lia |].
  apply (@getEstimate_meets_spec _ meanEWMA sampleConfig true
           (feed [segment4M] threeChunks)).
  vm_compute; lia.
Defined.

End EstimatorProofs.

(** ** The Player *)

Module PlayerProofs.

Import Player PlayerSpec.

Local Open Scope player_scope.
Local Open Scope string_scope.
Local Open Scope list_scope.

(** Naming the twenty fields of a player. *)
Ltac destruct_player p :=
  destruct p as [st man lm reps ads rec tf fe img pl cl str es me abr fs
                 cp ve ad eff].

(** Running the methods on a player whose fields are named. *)
Ltac run :=
  lazy -[noTracks app In streamBus emitted
         insert lookup empty map_insert gmap_lookup gmap_partial_alter
         gmap_empty String.eq_dec String.countable JS.number
         JS.strict_neq JS.truthy bitrateOrMinusOne
         Abr_setVideoBitrate Abr_setAudioBitrate Abr_setVideoMaxBitrate
         Abr_setAudioMaxBitrate Abr_getVideoMaxBitrate
         Abr_getAudioMaxBitrate
         changes adjacentDiffer lastRecorded differs recordedAs].

Lemma streamBus_app {AbrManager : Type}
    (l l' : list (Effect AbrManager)) :
  streamBus (l ++ l') = streamBus l ++ streamBus l'.
Proof. apply omap_app. Qed.

(** Comparing what went to the [_stream$] bus. *)
Ltac bus :=
  rewrite ?streamBus_app; simpl; rewrite ?app_nil_r, <- ?app_assoc;
  reflexivity.

Section Generic.

Context {AbrManager : Type} {abrManager : Adaptive_class AbrManager}.
Context {build : Build}.

Implicit Types p : Player.t AbrManager.

Lemma stop_when_stopped p :
  state p = Some PLAYER_STOPPED -> stop p = (Normal tt, p).
Proof.
  intros H. unfold stop, bind, this, when. rewrite H.
  rewrite bool_decide_eq_true_2 by reflexivity. reflexivity.
Qed.

(** [stop] either throws or leaves the player stopped. *)
Lemma stop_result p :
  (exists e p', stop p = (Throw e, p')) \/
  (exists p', stop p = (Normal tt, p') /\ state p' = Some PLAYER_STOPPED).
Proof.
  destruct_player p.
  destruct st as [[] |], cl; run;
    solve [left; eauto | right; eauto].
Qed.

(** C6.  [stop] on a stopped player returns the player as it is: no field
    is reset, nothing is emitted, [_clearLoaded$] gets no signal.  Hence
    [stop(); stop()] does what [stop()] does. *)
Theorem stop_idempotent p :
  (state p = Some PLAYER_STOPPED -> stop p = (Normal tt, p)) /\
  (stop ;; stop) p = stop p.
Proof.
  split; [apply stop_when_stopped |].
  unfold bind at 1.
  destruct (stop_result p) as [(e & p' & ->) | (p' & -> & H)].
  - reflexivity.
  - now apply stop_when_stopped.
Qed.

(** A player whose [_clearLoaded$] is [null] cannot be disposed of. *)
Lemma dispose_without_clearLoaded p :
  _clearLoaded' p = None ->
  exists p', dispose p = (Throw (TypeError "_clearLoaded$"), p').
Proof.
  intros Hnull. destruct_player p. simpl in Hnull. subst.
  destruct st as [[] |]; run; eauto.
Qed.

(** C4, as the code has it.  On a player that holds its resources
    [dispose] completes, leaves the player stopped and the eight fields
    [null]; [dispose] on the player it leaves throws a [TypeError], for it
    reads [_clearLoaded$], which is [null]. *)
Theorem dispose_once_then_unusable p :
  holdsResources p ->
  exists p',
    dispose p = (Normal tt, p') /\
    state p' = Some PLAYER_STOPPED /\
    disposed p' /\
    dispose p' = (Throw (TypeError "_clearLoaded$"), p').
Proof.
  intros ([c Hc] & [m Hm] & [a Ha] & [f Hf] & [s Hs] & [e He] & _ & _).
  destruct_player p. simpl in *. subst.
  exists (exec dispose
            (mk st man lm reps ads rec tf fe img pl (Some c) (Some s)
                (Some e) (Some m) (Some a) (Some f) cp ve ad eff)).
  destruct st as [[] |]; run; repeat split.
Qed.

(** However the player comes to be stopped, by [stop] or by a fatal
    error, it has no manifest then. *)
Lemma stopping_clears_manifest p (error : ErrorObject) :
  state p <> Some PLAYER_STOPPED -> is_Some (_clearLoaded' p) ->
  (completion stop p = Normal tt /\
   state (exec stop p) = Some PLAYER_STOPPED /\
   _manifest (exec stop p) = None) /\
  (state (exec (_onStreamError error) p) = Some PLAYER_STOPPED /\
   _manifest (exec (_onStreamError error) p) = None).
Proof.
  intros Hst [c Hc]. destruct_player p. simpl in Hst, Hc. subst.
  destruct st as [[] |], str; try contradiction; run; repeat split.
Qed.

(** Once the player is stopped, [loadVideo] leaves [_fatalError] as it
    is, whether it completes or throws. *)
Lemma loadVideo_keeps_fatalError (options : LoadVideoOptions) p :
  state p = Some PLAYER_STOPPED ->
  _fatalError (exec (loadVideo options) p) = _fatalError p.
Proof.
  intros H. destruct_player p. simpl in *. subst.
  destruct cp, ve, cl, es; reflexivity.
Qed.

(** A fatal error leaves the player stopped, with the error stored and an
    [error] event emitted. *)
Lemma _onStreamError_stores p (error : ErrorObject) :
  is_Some (_clearLoaded' p) ->
  let p' := exec (_onStreamError error) p in
  state p' = Some PLAYER_STOPPED /\
  _fatalError p' = Some error /\
  In (Trigger "error" (PError error)) (effects p').
Proof.
  intros [c Hc]. destruct_player p. simpl in *. subst.
  destruct st as [[] |], str; run;
    (split; [reflexivity |]); (split; [reflexivity |]);
    rewrite ?in_app_iff; simpl; tauto.
Qed.

(** Whatever the player was doing, after a fatal error [getError()]
    returns the error, and it still does after a further [loadVideo]. *)
Lemma getError_survives_loadVideo p (error : ErrorObject)
    (options : LoadVideoOptions) :
  is_Some (_clearLoaded' p) ->
  let failed := exec (_onStreamError error) p in
  completion getError failed = Normal (Some error) /\
  completion getError (exec (loadVideo options) failed)
  = Normal (Some error).
Proof.
  intros Hc failed.
  destruct (_onStreamError_stores p error Hc) as (Hst & Herr & _).
  fold failed in Hst, Herr.
  split.
  - unfold completion, getError, bind, this, ret. simpl. now rewrite Herr.
  - unfold completion, getError, bind, this, ret. simpl.
    now rewrite (loadVideo_keeps_fatalError options failed Hst), Herr.
Qed.

(** C5, as the code has it.  While the player is stopped and has no
    manifest, [setVideoBitrate] and [setAudioBitrate] throw and change
    nothing; [setMaxVideoBitrate] and [setMaxAudioBitrate] complete, the
    ABR manager has been given the ceiling, [getMaxVideoBitrate]
    ([getMaxAudioBitrate]) asks that manager, and the Stream of the next
    [loadVideo] is handed that manager. *)
Theorem setters_while_stopped (btr : JS.number)
    (options : LoadVideoOptions) p :
  state p = Some PLAYER_STOPPED -> _manifest p = None ->
  holdsResources p ->
  setVideoBitrate btr p
  = (Throw (AssertionError "player: no manifest loaded"), p) /\
  setAudioBitrate btr p
  = (Throw (AssertionError "player: no manifest loaded"), p) /\
  exists abr, _abrManager p = Some abr /\
    (exists p1 p2,
       setMaxVideoBitrate btr p = (Normal tt, p1) /\
       state p1 = Some PLAYER_STOPPED /\
       _abrManager p1 = Some (Abr_setVideoMaxBitrate btr abr) /\
       completion getMaxVideoBitrate p1
       = Normal (Abr_getVideoMaxBitrate (Abr_setVideoMaxBitrate btr abr)) /\
       loadVideo options p1 = (Normal tt, p2) /\
       _abrManager p2 = Some (Abr_setVideoMaxBitrate btr abr) /\
       In (StreamConnect (Some (Abr_setVideoMaxBitrate btr abr)))
          (effects p2)) /\
    (exists p1 p2,
       setMaxAudioBitrate btr p = (Normal tt, p1) /\
       state p1 = Some PLAYER_STOPPED /\
       _abrManager p1 = Some (Abr_setAudioMaxBitrate btr abr) /\
       completion getMaxAudioBitrate p1
       = Normal (Abr_getAudioMaxBitrate (Abr_setAudioMaxBitrate btr abr)) /\
       loadVideo options p1 = (Normal tt, p2) /\
       _abrManager p2 = Some (Abr_setAudioMaxBitrate btr abr) /\
       In (StreamConnect (Some (Abr_setAudioMaxBitrate btr abr)))
          (effects p2)).
Proof.
  intros Hst Hman
    ([c Hc] & [m Hm] & [a Ha] & [f Hf] & [s Hs] & [e He] & [k Hk] & [v Hv]).
  destruct_player p. simpl in *. subst.
  split; [reflexivity |]. split; [reflexivity |].
  exists a. split; [reflexivity |]. split.
  - match goal with |- context [setMaxVideoBitrate btr ?q] =>
      exists (exec (setMaxVideoBitrate btr) q),
        (exec (setMaxVideoBitrate btr ;; loadVideo options) q)
    end.
    run. do 6 (split; [reflexivity |]). rewrite !in_app_iff. simpl. tauto.
  - match goal with |- context [setMaxAudioBitrate btr ?q] =>
      exists (exec (setMaxAudioBitrate btr) q),
        (exec (setMaxAudioBitrate btr ;; loadVideo options) q)
    end.
    run. do 6 (split; [reflexivity |]). rewrite !in_app_iff. simpl. tauto.
Qed.

(** *** Recorded bitrates *)

Lemma emitted_app (event : string)
    (l l' : list (Effect AbrManager)) :
  emitted event (l ++ l') = emitted event l ++ emitted event l'.
Proof. apply omap_app. Qed.

Lemma lastRecorded_app prev (l l' : list JS.number) :
  lastRecorded prev (l ++ l') = lastRecorded (lastRecorded prev l) l'.
Proof. apply fold_left_app. Qed.

Lemma changes_app prev (l l' : list JS.number) :
  changes prev l -> changes (lastRecorded prev l) l' ->
  changes prev (l ++ l').
Proof.
  revert prev. induction l as [| x l IH]; intros prev Hl Hl'; simpl in *.
  - exact Hl'.
  - destruct Hl as [Hx Hl]. split; [exact Hx |]. now apply IH.
Qed.

Lemma changes_adjacentDiffer prev (l : list JS.number) :
  changes prev l -> adjacentDiffer l.
Proof.
  revert prev. induction l as [| x l IH]; intros prev H; [exact I |].
  destruct H as [_ H]. destruct l as [| y l]; [exact I |].
  split; [apply H | apply (IH _ H)].
Qed.

Lemma recordedAs_app (key event : string) p p1 p2
    (new1 new2 : list (Effect AbrManager)) :
  recordedAs key event p p1 new1 -> recordedAs key event p1 p2 new2 ->
  recordedAs key event p p2 (new1 ++ new2).
Proof.
  unfold recordedAs. intros [Hc1 Hr1] [Hc2 Hr2].
  rewrite emitted_app, lastRecorded_app, <- Hr1.
  split; [| exact Hr2]. apply changes_app; [exact Hc1 |].
  now rewrite <- Hr1.
Qed.

(** The value [_onBufferNext] records is never NaN. *)
Lemma bitrateOrMinusOne_not_nan (r : option Representation) :
  PrimFloat.is_nan (bitrateOrMinusOne r) = false.
Proof.
  destruct r as [r |]; simpl; [| reflexivity].
  destruct (JS.truthy (bitrate r)) eqn:H; [| reflexivity].
  now apply JSFacts.truthy_not_nan.
Qed.

Lemma differs_recorded (prev : option JS.number) (x : JS.number) :
  PrimFloat.is_nan x = false ->
  match prev with None => true | Some y => JS.strict_neq y x end = true ->
  differs prev x.
Proof.
  intros Hx H. destruct prev as [y |]; [| exact I].
  split; [exact H |]. intros ->.
  unfold JS.strict_neq, PrimFloat.is_nan in *.
  destruct (PrimFloat.eqb x x); discriminate.
Qed.

(** One buffer event: it completes, and emits a change of the video
    (audio) bitrate only with a value that differs from the recorded
    one, which it then records. *)
Lemma _onBufferNext_step (value : BufferValue) p :
  exists p' new,
    _onBufferNext value p = (Normal tt, p') /\
    effects p' = effects p ++ new /\
    recordedAs "videoBitrate" "videoBitrateChange" p p' new /\
    recordedAs "audioBitrate" "audioBitrateChange" p p' new /\
    _stream' p' = _stream' p /\ streamBus new = [].
Proof.
  destruct_player p. destruct value as [bt a r].
  pose proof (bitrateOrMinusOne_not_nan r) as Hnan.
  destruct (String.eqb bt "video") eqn:Hv;
    [apply String.eqb_eq in Hv; subst bt
    | destruct (String.eqb bt "audio") eqn:Ha;
      [apply String.eqb_eq in Ha; subst bt |]].
  - destruct (match rec !! "videoBitrate" with
              | None => true
              | Some y => JS.strict_neq y (bitrateOrMinusOne r)
              end) eqn:Hd.
    + match goal with |- context [_onBufferNext ?v ?q] =>
        exists (exec (_onBufferNext v) q),
          [Trigger "videoBitrateChange" (PNumber (bitrateOrMinusOne r))]
      end.
      run. rewrite Hd. run.
      split; [reflexivity |]. split; [reflexivity |].
      split; [| split; [| split; reflexivity]]; split; simpl;
        rewrite ?lookup_insert_eq, ?lookup_insert_ne by discriminate;
        auto using differs_recorded.
    + match goal with |- context [_onBufferNext ?v ?q] =>
        exists (exec (_onBufferNext v) q), []
      end.
      run. rewrite Hd. run.
      split; [reflexivity |]. split; [now rewrite app_nil_r |].
      split; [split; simpl; auto |]. split; [split; simpl; auto |].
    split; reflexivity.
  - destruct (match rec !! "audioBitrate" with
              | None => true
              | Some y => JS.strict_neq y (bitrateOrMinusOne r)
              end) eqn:Hd.
    + match goal with |- context [_onBufferNext ?v ?q] =>
        exists (exec (_onBufferNext v) q),
          [Trigger "audioBitrateChange" (PNumber (bitrateOrMinusOne r))]
      end.
      run. rewrite Hd. run.
      split; [reflexivity |]. split; [reflexivity |].
      split; [| split; [| split; reflexivity]]; split; simpl;
        rewrite ?lookup_insert_eq, ?lookup_insert_ne by discriminate;
        auto using differs_recorded.
    + match goal with |- context [_onBufferNext ?v ?q] =>
        exists (exec (_onBufferNext v) q), []
      end.
      run. rewrite Hd. run.
      split; [reflexivity |]. split; [now rewrite app_nil_r |].
      split; [split; simpl; auto |]. split; [split; simpl; auto |].
    split; reflexivity.
  - match goal with |- context [_onBufferNext ?v ?q] =>
      exists (exec (_onBufferNext v) q), []
    end.
    unfold exec, _onBufferNext. cbn [bufferType]. rewrite Hv, Ha.
    run.
    split; [reflexivity |]. split; [now rewrite app_nil_r |].
    split; [split; simpl; auto |]. split; [split; simpl; auto |].
    split; reflexivity.
Qed.

Lemma onBufferEvents_run (values : list BufferValue) p :
  exists p' new,
    onBufferEvents values p = (Normal tt, p') /\
    effects p' = effects p ++ new /\
    recordedAs "videoBitrate" "videoBitrateChange" p p' new /\
    recordedAs "audioBitrate" "audioBitrateChange" p p' new.
Proof.
  revert p. induction values as [| value values IH]; intros p.
  - exists p, []. split; [reflexivity |]. split; [now rewrite app_nil_r |].
    split; split; simpl; auto.
  - destruct (_onBufferNext_step value p)
      as (p1 & new1 & E1 & F1 & V1 & A1 & _).
    destruct (IH p1) as (p2 & new2 & E2 & F2 & V2 & A2).
    exists p2, (new1 ++ new2). simpl. unfold bind. rewrite E1.
    split; [exact E2 |]. split; [now rewrite F2, F1, app_assoc |].
    split; eauto using recordedAs_app.
Qed.

(** C10.  Whatever the player has recorded, a run of buffer events
    completes; each [videoBitrateChange] ([audioBitrateChange]) it emits
    carries a value that differs from the one recorded just before, so
    any two consecutive emissions of the run carry different values; and
    the value recorded at the end is the last one emitted. *)
Theorem bitrate_change_only_on_new_value (values : list BufferValue) p :
  exists p' new,
    onBufferEvents values p = (Normal tt, p') /\
    effects p' = effects p ++ new /\
    recordedAs "videoBitrate" "videoBitrateChange" p p' new /\
    recordedAs "audioBitrate" "audioBitrateChange" p p' new /\
    adjacentDiffer (emitted "videoBitrateChange" new) /\
    adjacentDiffer (emitted "audioBitrateChange" new).
Proof.
  destruct (onBufferEvents_run values p) as (p' & new & E & F & V & A).
  exists p', new. repeat (split; [assumption |]).
  split; eapply changes_adjacentDiffer; [apply V | apply A].
Qed.

(** *** The [_stream$] bus *)

(** C9.  A callback of the Stream delivered to a player that holds
    [_stream$]: when its handler completes, the event has been added to
    the [_stream$] bus twice; when it throws before its last statements,
    the event has not been added at all.  It completes on every event it
    accepts, provided the player holds [_clearLoaded$] (which the
    constructor assigns, and [dispose] nulls, together with [_stream$]). *)
Theorem stream_events_forwarded_twice (cb : StreamCallback) p :
  is_Some (_stream' p) ->
  match completion (deliver cb) p with
  | Normal _ =>
      streamBus (effects (exec (deliver cb) p))
      = streamBus (effects p) ++ [forwarded cb; forwarded cb]
  | Throw _ =>
      streamBus (effects (exec (deliver cb) p)) = streamBus (effects p)
  end /\
  (is_Some (_clearLoaded' p) -> accepted cb = true ->
   completion (deliver cb) p = Normal tt).
Proof.
  intros [s Hs].
  destruct cb as [[v | v | v | v | e | e | | ty] | err | | w];
    [| destruct_player p; simpl in Hs; subst ..].
  - (* a buffer event *)
    destruct (_onBufferNext_step v p)
      as (p1 & new & E & F & _ & _ & S1 & B).
    rewrite Hs in S1.
    assert (D : deliver (OnNext (SBuffer v)) p
                = forwardToStream (SBuffer v) p1).
    { unfold deliver, _onStreamNext. unfold bind at 1. now rewrite E. }
    unfold completion, exec. rewrite D.
    destruct_player p1. simpl in S1, F. subst.
    run. split; [| reflexivity].
    rewrite !streamBus_app, B, app_nil_r, <- app_assoc. reflexivity.
  - (* the manifest *)
    destruct v as [m l], build as [dev]. unfold accepted.
    destruct dev, m, l; run; (split; [bus | intros; done]).
  - (* a manifest update *)
    destruct v as [m l], build as [dev]. unfold accepted.
    destruct dev, m; run; (split; [bus | intros; done]).
  - (* a segment went through a pipeline *)
    destruct v as [seg bt pr]. unfold accepted.
    unfold completion, exec, deliver, _onStreamNext.
    cbn [pipelineBufferType parsed].
    destruct (String.eqb bt "image"); [destruct pr |]; run;
      (split; [bus | intros; done]).
  - run. split; [bus | reflexivity].
  - run. split; [bus | reflexivity].
  - run. split; [bus | reflexivity].
  - run. split; [bus | reflexivity].
  - (* a fatal error *)
    destruct st as [[] |], cl; run;
      (split; [bus | intros [] ?; done]).
  - (* the end of the stream *)
    destruct st as [[] |], cl; run;
      (split; [bus | intros [] ?; done]).
  - (* a warning *)
    run. split; [bus | reflexivity].
Qed.

(** Without [_stream$] the handlers throw instead of forwarding. *)
Lemma forwardToStream_without_stream (x : StreamInfos) p :
  _stream' p = None ->
  forwardToStream x p = (Throw (TypeError "_stream$"), p).
Proof.
  intros H. unfold forwardToStream, bind, this, when, deref. rewrite H.
  simpl. now rewrite H.
Qed.

End Generic.

Import Instances.

#[local] Existing Instance devBuild.
#[local] Existing Instance loggingManager.

Lemma freshPlayer_holdsResources : holdsResources freshPlayer.
Proof. repeat split; eexists; reflexivity. Qed.

Lemma stop_idempotent_witness :
  state freshPlayer = Some PLAYER_STOPPED /\
  stop freshPlayer = (Normal tt, freshPlayer).
Proof.
  split; [reflexivity |].
  apply (proj1 (stop_idempotent freshPlayer)). reflexivity.
Defined.

(** On a fresh player the first [dispose] completes and the second one
    throws. *)
Lemma dispose_twice_throws :
  holdsResources freshPlayer /\
  completion dispose freshPlayer = Normal tt /\
  completion (dispose ;; dispose) freshPlayer
  = Throw (TypeError "_clearLoaded$").
Proof.
  split; [exact freshPlayer_holdsResources |].
  split; reflexivity.
Qed.

Lemma dispose_once_then_unusable_witness :
  holdsResources freshPlayer /\
  exists p',
    dispose freshPlayer = (Normal tt, p') /\
    state p' = Some PLAYER_STOPPED /\
    disposed p' /\
    dispose p' = (Throw (TypeError "_clearLoaded$"), p').
Proof.
  split; [exact freshPlayer_holdsResources |].
  exact (dispose_once_then_unusable freshPlayer freshPlayer_holdsResources).
Defined.

(** A fresh player is stopped, and [setVideoBitrate(0)] ("0 to auto") and
    [setAudioBitrate(0)] throw on it. *)
Lemma setBitrate_throws_when_stopped :
  state freshPlayer = Some PLAYER_STOPPED /\
  completion (setVideoBitrate 0%float) freshPlayer
  = Throw (AssertionError "player: no manifest loaded") /\
  completion (setAudioBitrate 0%float) freshPlayer
  = Throw (AssertionError "player: no manifest loaded").
Proof. repeat split. Qed.

Lemma setters_while_stopped_witness :
  state freshPlayer = Some PLAYER_STOPPED /\
  _manifest freshPlayer = None /\
  holdsResources freshPlayer /\
  setVideoBitrate 2000000%float freshPlayer
  = (Throw (AssertionError "player: no manifest loaded"), freshPlayer) /\
  completion (setMaxVideoBitrate 2000000%float ;; loadVideo sampleOptions ;;
              getMaxVideoBitrate) freshPlayer
  = Normal 2000000%float.
Proof.
  split; [reflexivity |]. split; [reflexivity |].
  split; [exact freshPlayer_holdsResources |].
  split; [| reflexivity].
  apply (setters_while_stopped 2000000%float sampleOptions freshPlayer);
    [reflexivity | reflexivity | exact freshPlayer_holdsResources].
Defined.

(** The setters of the buffer bounds read [this.adaptive], which is
    [undefined]. *)
Lemma setWantedBufferAhead_throws :
  completion (setWantedBufferAhead 30%float) freshPlayer
  = Throw (TypeError "adaptive") /\
  completion (setMaxBufferAhead 30%float) freshPlayer
  = Throw (TypeError "adaptive") /\
  completion (setMaxBufferBehind 30%float) freshPlayer
  = Throw (TypeError "adaptive").
Proof. repeat split. Qed.

(** C7 on a run: a content is loaded, its stream fails with a fatal
    error, and a second content is loaded.  The error is stored and
    emitted and the player stopped; but the second [loadVideo] completes,
    the player is loading, and [getError()] still returns the error of the
    first content. *)
Theorem getError_after_reload :
  let loading := exec (loadVideo sampleOptions) freshPlayer in
  let failed := exec (_onStreamError sampleError) loading in
  let reloaded := exec (loadVideo sampleOptions) failed in
  state loading = Some PLAYER_LOADING /\
  state failed = Some PLAYER_STOPPED /\
  completion getError failed = Normal (Some sampleError) /\
  In (Trigger "error" (PError sampleError)) (effects failed) /\
  completion (loadVideo sampleOptions) failed = Normal tt /\
  state reloaded = Some PLAYER_LOADING /\
  completion getError reloaded = Normal (Some sampleError).
Proof.
  intros loading failed reloaded.
  split; [reflexivity |]. split; [reflexivity |]. split; [reflexivity |].
  split; [| repeat split].
  destruct (_onStreamError_stores loading sampleError) as (_ & _ & H);
    [eexists; reflexivity | exact H].
Qed.

(** A fatal error is forwarded twice to [_stream$]. *)
Lemma stream_events_forwarded_twice_witness :
  is_Some (_stream' freshPlayer) /\
  streamBus (effects (exec (deliver (OnError sampleError)) freshPlayer))
  = streamBus (effects freshPlayer)
    ++ [SError sampleError; SError sampleError].
Proof.
  assert (Hs : is_Some (_stream' freshPlayer)) by (eexists; reflexivity).
  split; [exact Hs |].
  exact (proj1 (stream_events_forwarded_twice (OnError sampleError)
                  freshPlayer Hs)).
Defined.

(** Three video buffer events with bitrates 1000, 1000 and 2000 emit
    [videoBitrateChange] twice, with 1000 and with 2000. *)
Example bitrate_changes_run :
  let video (b : JS.number) :=
    {| bufferType := "video"; adaptation := None;
       representation := Some {| bitrate := b |} |} in
  emitted "videoBitrateChange"
    (effects (exec (onBufferEvents
                      [video 1000%float; video 1000%float; video 2000%float])
                   freshPlayer))
  = [1000%float; 2000%float].
Proof. reflexivity. Qed.

End PlayerProofs.

(** ** More facts about JavaScript numbers *)

Module NumberFacts.

(** [===] on numbers does not depend on the order of its operands. *)
Lemma SFeqb_sym (a b : spec_float) : SFeqb a b = SFeqb b a.
Proof.
  unfold SFeqb, SFcompare.
  destruct a as [s | s | | s m e], b as [s' | s' | | s' m' e'];
    try reflexivity; try (destruct s, s'; reflexivity);
    try (destruct s; reflexivity); try (destruct s'; reflexivity).
  destruct s, s'; try reflexivity;
    rewrite (Z.compare_antisym e e');
    destruct (e ?= e')%Z; simpl; try reflexivity;
    change (Pos.compare_cont Eq m m') with (Pos.compare m m');
    change (Pos.compare_cont Eq m' m) with (Pos.compare m' m);
    rewrite (Pos.compare_antisym m m');
    destruct (m ?= m')%positive; reflexivity.
Qed.

Lemma eqb_sym (x y : float) : PrimFloat.eqb x y = PrimFloat.eqb y x.
Proof. rewrite !FloatAxioms.eqb_spec. apply SFeqb_sym. Qed.

Lemma strict_neq_sym (x y : JS.number) :
  JS.strict_neq x y = JS.strict_neq y x.
Proof. unfold JS.strict_neq. now rewrite eqb_sym. Qed.

Lemma SFeqb_eq (a b : spec_float) :
  SFeqb a b = true -> (forall s, b <> S754_zero s) -> a = b.
Proof.
  unfold SFeqb, SFcompare.
  destruct a as [s | s | | s m e], b as [s' | s' | | s' m' e'];
    intros H Hz; try discriminate;
    try (destruct s; discriminate); try (destruct s'; discriminate).
  - now destruct (Hz s').
  - destruct s, s'; (discriminate || reflexivity).
  - destruct s, s'; try discriminate;
      destruct (Z.compare_spec e e') as [-> | |]; try discriminate;
      change (Pos.compare_cont Eq m m') with (Pos.compare m m') in H;
      destruct (Pos.compare_spec m m') as [-> | |]; try discriminate;
      reflexivity.
Qed.

(** Two numbers that are [===] are the same number, unless they are
    zeros. *)
Lemma eqb_truthy_eq (x y : JS.number) :
  PrimFloat.eqb x y = true -> JS.truthy y = true -> x = y.
Proof.
  intros H Hy. apply Prim2SF_inj.
  rewrite FloatAxioms.eqb_spec in H. apply SFeqb_eq; [exact H |].
  intros s E. unfold JS.truthy, PrimFloat.is_zero in Hy.
  rewrite FloatAxioms.eqb_spec, E in Hy.
  change (Prim2SF zero) with (S754_zero false) in Hy.
  destruct s; discriminate Hy.
Qed.

(** A truthy number is [!==] to [0]. *)
Lemma truthy_neq_zero (x : JS.number) :
  JS.truthy x = true -> PrimFloat.eqb x 0 = false.
Proof.
  intros H. destruct (PrimFloat.eqb x 0) eqn:E; [| reflexivity].
  unfold JS.truthy, PrimFloat.is_zero in H.
  change (PrimFloat.eqb x zero) with (PrimFloat.eqb x 0) in H.
  rewrite E in H. discriminate.
Qed.

(** A number that is [===] to [0] is falsy. *)
Lemma zero_falsy (x : JS.number) :
  PrimFloat.eqb x 0 = true -> JS.truthy x = false.
Proof.
  intros H. unfold JS.truthy, PrimFloat.is_zero.
  change (PrimFloat.eqb x zero) with (PrimFloat.eqb x 0).
  now rewrite H.
Qed.

End NumberFacts.

(** ** More on the bandwidth estimator *)

Module EstimatorExtras.

Import BandwidthEstimator.

(** *** Ordering facts about numbers *)

Lemma SF_le_of_lt (a b : spec_float) : SFltb a b = true -> SFleb a b = true.
Proof.
  unfold SFltb, SFleb. destruct (SFcompare a b) as [[| |] |]; congruence.
Qed.

Lemma SF_le_refl (a : spec_float) : a <> S754_nan -> SFleb a a = true.
Proof.
  unfold SFleb. destruct a as [s | s | | s m e]; simpl; try congruence;
    intros _; [destruct s; reflexivity |].
  destruct s; rewrite Z.compare_refl;
    change (Pos.compare_cont Eq m m) with (Pos.compare m m);
    rewrite Pos.compare_refl; reflexivity.
Qed.

Lemma le_of_lt (x y : float) :
  PrimFloat.ltb x y = true -> PrimFloat.leb x y = true.
Proof. rewrite ltb_spec, leb_spec. apply SF_le_of_lt. Qed.

Lemma le_refl (x : float) :
  PrimFloat.is_nan x = false -> PrimFloat.leb x x = true.
Proof. intros H. rewrite leb_spec. now apply SF_le_refl, JSFacts.not_nan. Qed.

(** Two numbers none of which is below the other, NaN apart, are below
    each other in the large sense. *)
Lemma le_of_tie (x y : float) :
  PrimFloat.is_nan x = false -> PrimFloat.is_nan y = false ->
  PrimFloat.ltb x y = false -> PrimFloat.ltb y x = false ->
  PrimFloat.leb x y = true /\ PrimFloat.leb y x = true.
Proof.
  intros Hx Hy Hxy Hyx.
  destruct (JSFacts.tie x y Hx Hy Hxy Hyx) as [-> | [[-> | ->] [-> | ->]]];
    try (split; reflexivity).
  split; now apply le_refl.
Qed.

(** [Math.min] of two numbers is one of them and is below both; [Math.max]
    is one of them and above both. *)
Lemma Math_min_below (x y : JS.number) :
  PrimFloat.is_nan x = false -> PrimFloat.is_nan y = false ->
  (JS.Math_min x y = x \/ JS.Math_min x y = y) /\
  JS.le (JS.Math_min x y) x = true /\ JS.le (JS.Math_min x y) y = true.
Proof.
  intros Hx Hy. unfold JS.Math_min, JS.le. rewrite Hx, Hy. simpl.
  destruct (PrimFloat.ltb x y) eqn:Hxy.
  - split; [now left |]. split; [now apply le_refl | now apply le_of_lt].
  - destruct (PrimFloat.ltb y x) eqn:Hyx.
    + split; [now right |]. split; [now apply le_of_lt | now apply le_refl].
    + destruct (le_of_tie x y Hx Hy Hxy Hyx) as [L1 L2].
      destruct (PrimFloat.get_sign x).
      * split; [now left |]. split; [now apply le_refl | exact L1].
      * split; [now right |]. split; [exact L2 | now apply le_refl].
Qed.

Lemma Math_max_above (x y : JS.number) :
  PrimFloat.is_nan x = false -> PrimFloat.is_nan y = false ->
  (JS.Math_max x y = x \/ JS.Math_max x y = y) /\
  JS.le x (JS.Math_max x y) = true /\ JS.le y (JS.Math_max x y) = true.
Proof.
  intros Hx Hy. unfold JS.Math_max, JS.le. rewrite Hx, Hy. simpl.
  destruct (PrimFloat.ltb x y) eqn:Hxy.
  - split; [now right |]. split; [now apply le_of_lt | now apply le_refl].
  - destruct (PrimFloat.ltb y x) eqn:Hyx.
    + split; [now left |]. split; [now apply le_refl | now apply le_of_lt].
    + destruct (le_of_tie x y Hx Hy Hxy Hyx) as [L1 L2].
      destruct (PrimFloat.get_sign x).
      * split; [now right |]. split; [exact L1 | now apply le_refl].
      * split; [now left |]. split; [now apply le_refl | exact L2].
Qed.

(** [Math.max] is NaN only when an argument is. *)
Lemma Math_max_nan (x y : JS.number) :
  PrimFloat.is_nan (JS.Math_max x y) = false ->
  PrimFloat.is_nan x = false /\ PrimFloat.is_nan y = false.
Proof.
  unfold JS.Math_max.
  destruct (PrimFloat.is_nan x), (PrimFloat.is_nan y); simpl;
    try (intros H; discriminate H); auto.
Qed.

(** *** Runs of calls *)

Section Generic.

Context {EWMA : Type} {ewma : EWMA_class EWMA} {config : Config}.

Implicit Types s : BandwidthEstimator.t EWMA.

Lemma performAll_app (calls calls' : list Call) s :
  performAll (calls ++ calls') s = performAll calls' (performAll calls s).
Proof. apply fold_left_app. Qed.

(** An invariant of [addSample] and [reset] that holds of the new
    estimator holds after every run of calls. *)
Lemma performAll_invariant (I : BandwidthEstimator.t EWMA -> Prop) :
  (forall d n c s, I s -> I (addSample d n c s)) ->
  (forall s, I s -> I (reset s)) ->
  forall calls s, I s -> I (performAll calls s).
Proof.
  intros Hadd Hreset calls. unfold performAll.
  induction calls as [| [x |] calls IH]; intros s Hs; simpl; auto.
Qed.

(** X1.  However samples and resets follow one another on a new
    estimator, the chunk ring never holds more than three entries, so the
    low-latency estimate is a mean of exactly three bandwidths whenever it
    is defined. *)
Theorem ring_never_exceeds_three (lowLatencyMode : bool)
    (calls : list Call) :
  let s := performAll calls (new lowLatencyMode) in
  length (_lowLatencyBandwidthBuffer s) <= 3 /\
  (getLowLatencyBandwidth s <> None ->
   length (_lowLatencyBandwidthBuffer s) = 3).
Proof.
  intros s.
  assert (H : length (_lowLatencyBandwidthBuffer s) <= 3).
  { subst s.
    apply (performAll_invariant
             (fun s => length (_lowLatencyBandwidthBuffer s) <= 3)).
    - intros. now apply EstimatorProofs.addSample_buffer_length.
    - intros s0 H0. exact H0.
    - simpl. lia. }
  split; [exact H |].
  unfold getLowLatencyBandwidth.
  destruct (Nat.ltb_spec (length (_lowLatencyBandwidthBuffer s)) 3);
    [congruence | lia].
Qed.

(** X2.  An estimator built without low-latency mode never uses the chunk
    ring: after any run of calls the ring is empty, a chunk is sampled
    like any other request, and [getEstimate] does not depend on its
    flag. *)
Theorem ring_unused_without_low_latency (calls : list Call) :
  let s := performAll calls (new false) in
  _lowLatencyMode s = false /\
  _lowLatencyBandwidthBuffer s = [] /\
  (forall d n, addSample d n true s = addSample d n false s) /\
  getEstimate true s = getEstimate false s.
Proof.
  intros s.
  assert (H : _lowLatencyMode s = false /\ _lowLatencyBandwidthBuffer s = []).
  { subst s.
    apply (performAll_invariant
             (fun s => _lowLatencyMode s = false /\
                       _lowLatencyBandwidthBuffer s = [])).
    - intros d n c s0 [Hm Hb]. unfold addSample. rewrite Hm, andb_false_r.
      destruct (JS.lt n ABR_MINIMUM_CHUNK_SIZE); simpl; auto.
    - intros s0 H0. exact H0.
    - split; reflexivity. }
  destruct H as [Hm Hb]. split; [exact Hm |]. split; [exact Hb |].
  split.
  - intros d n. unfold addSample. now rewrite Hm.
  - unfold getEstimate. now rewrite Hm.
Qed.

(** X3.  A sample of fewer bytes than [ABR_MINIMUM_CHUNK_SIZE] never
    reaches the two EWMAs nor the byte count, so the regular estimate is
    the one of before; when it is not a chunk, or the estimator is not in
    low-latency mode, the estimator is left exactly as it was. *)
Theorem small_sample_is_dropped (d n : JS.number) (c : bool) s :
  JS.lt n ABR_MINIMUM_CHUNK_SIZE = true ->
  _fastEWMA (addSample d n c s) = _fastEWMA s /\
  _slowEWMA (addSample d n c s) = _slowEWMA s /\
  _bytesSampled (addSample d n c s) = _bytesSampled s /\
  getEstimate false (addSample d n c s) = getEstimate false s /\
  (c && _lowLatencyMode s = false -> addSample d n c s = s).
Proof.
  intros Hsmall. unfold addSample.
  destruct (c && _lowLatencyMode s) eqn:Hc.
  - destruct (serverLimited _ _); [| rewrite Hsmall];
      unfold getEstimate; simpl; rewrite ?orb_true_r; repeat split;
      intros; discriminate.
  - rewrite Hsmall. repeat split.
Qed.

(** X4.  While the ring holds fewer than three entries no chunk is
    rejected: in low-latency mode every chunk is appended to the ring. *)
Theorem no_rejection_before_ring_is_full (d n : JS.number) s :
  _lowLatencyMode s = true ->
  length (_lowLatencyBandwidthBuffer s) < 3 ->
  _lowLatencyBandwidthBuffer (addSample d n true s)
  = _lowLatencyBandwidthBuffer s ++ [(n * 8000 / d)%float].
Proof.
  intros Hmode Hlen. unfold addSample, getLowLatencyBandwidth.
  rewrite Hmode. simpl.
  destruct (Nat.ltb_spec (length (_lowLatencyBandwidthBuffer s)) 3);
    [| lia].
  simpl.
  assert (Hpush : pushBandwidth (_lowLatencyBandwidthBuffer s)
                    (n * 8000 / d)%float
                  = _lowLatencyBandwidthBuffer s ++ [(n * 8000 / d)%float]).
  { unfold pushBandwidth. cbv zeta.
    match goal with |- context [if ?c then _ else _] =>
      destruct c eqn:E
    end; [| reflexivity].
    apply Nat.ltb_lt in E. rewrite length_app in E. simpl in E. lia. }
  destruct (JS.lt n ABR_MINIMUM_CHUNK_SIZE); simpl; exact Hpush.
Qed.

(** X5.  [reset] forgets the regular estimate but not the low-latency
    one: on an estimator in low-latency mode, with a positive
    [ABR_MINIMUM_TOTAL_BYTES], [getEstimate(false)] is undefined after a
    reset while [getEstimate(true)] still returns the mean of the ring of
    before. *)
Theorem reset_keeps_low_latency_estimate s :
  _lowLatencyMode s = true ->
  JS.lt 0%float ABR_MINIMUM_TOTAL_BYTES = true ->
  getEstimate false (reset s) = None /\
  getEstimate true (reset s) = getLowLatencyBandwidth s.
Proof.
  intros Hmode Hmin. unfold getEstimate, reset, getLowLatencyBandwidth.
  simpl. rewrite Hmode, Hmin. simpl.
  split; [reflexivity |].
  now destruct (length (_lowLatencyBandwidthBuffer s) <? 3).
Qed.

(** X6.  When the two EWMAs give numbers, the regular estimate, if there
    is one, is one of the two and exceeds none of them. *)
Theorem regular_estimate_is_the_lower_average (r : JS.number) s :
  PrimFloat.is_nan (EWMA_getEstimate (_fastEWMA s)) = false ->
  PrimFloat.is_nan (EWMA_getEstimate (_slowEWMA s)) = false ->
  getEstimate false s = Some r ->
  (r = EWMA_getEstimate (_fastEWMA s) \/
   r = EWMA_getEstimate (_slowEWMA s)) /\
  JS.le r (EWMA_getEstimate (_fastEWMA s)) = true /\
  JS.le r (EWMA_getEstimate (_slowEWMA s)) = true.
Proof.
  intros Hf Hs. unfold getEstimate. rewrite orb_true_r.
  destruct (JS.lt (_bytesSampled s) ABR_MINIMUM_TOTAL_BYTES);
    [discriminate |].
  intros [= <-]. now apply Math_min_below.
Qed.

(** X7.  Setting the flag never loses nor lowers an estimate: when
    [getEstimate(false)] returns a number, [getEstimate(true)] returns one
    too, and, unless that one is NaN, it is at least as large. *)
Theorem flag_never_lowers_the_estimate (r : JS.number) s :
  getEstimate false s = Some r ->
  exists r' : JS.number,
    getEstimate true s = Some r' /\
    (PrimFloat.is_nan r' = false -> JS.le r r' = true).
Proof.
  unfold getEstimate. rewrite orb_true_r, orb_false_r.
  destruct (JS.lt (_bytesSampled s) ABR_MINIMUM_TOTAL_BYTES);
    [discriminate |].
  intros [= <-].
  set (regular := JS.Math_min _ _).
  destruct (negb (_lowLatencyMode s)).
  - exists regular. split; [reflexivity |]. apply le_refl.
  - destruct (getLowLatencyBandwidth s) as [low |].
    + exists (JS.Math_max low regular). split; [reflexivity |].
      intros Hnan. destruct (Math_max_nan _ _ Hnan) as [Hl Hr].
      now apply Math_max_above.
    + exists regular. split; [reflexivity |]. apply le_refl.
Qed.

End Generic.

Import Instances.

Lemma small_sample_is_dropped_witness :
  JS.lt 1000%float (@ABR_MINIMUM_CHUNK_SIZE sampleConfig) = true /\
  estimate false
    (feed [{| durationInMs := 10%float; numberOfBytes := 1000%float;
              isChunk := false |}] threeChunks)
  = estimate false threeChunks.
Proof.
  split; [reflexivity |].
  apply (@small_sample_is_dropped _ meanEWMA sampleConfig
           10%float 1000%float false threeChunks). reflexivity.
Defined.

Lemma no_rejection_before_ring_is_full_witness :
  length (_lowLatencyBandwidthBuffer (feed [chunk4M] (newEstimator true)))
  < 3 /\
  _lowLatencyBandwidthBuffer
    (feed [chunk3600k] (feed [chunk4M] (newEstimator true)))
  = [4000000%float; 3600000%float].
Proof.
  split; [vm_compute; lia |].
  apply (@no_rejection_before_ring_is_full _ meanEWMA sampleConfig
           40%float 18000%float (feed [chunk4M] (newEstimator true)));
    [reflexivity | vm_compute; lia].
Defined.

Lemma reset_keeps_low_latency_estimate_witness :
  @getEstimate _ meanEWMA sampleConfig false
    (@reset _ meanEWMA sampleConfig threeChunks) = None /\
  @getEstimate _ meanEWMA sampleConfig true
    (@reset _ meanEWMA sampleConfig threeChunks) = Some 4000000%float.
Proof.
  apply (@reset_keeps_low_latency_estimate _ meanEWMA sampleConfig
           threeChunks); reflexivity.
Defined.

Lemma ring_never_exceeds_three_witness :
  length (_lowLatencyBandwidthBuffer
            (@performAll _ meanEWMA sampleConfig
               [CallAddSample chunk4M; CallAddSample chunk3600k;
                CallAddSample chunk4M; CallReset; CallAddSample chunk3600k]
               (newEstimator true))) = 3.
Proof.
  refine (proj2 (@ring_never_exceeds_three _ meanEWMA sampleConfig true
                   [CallAddSample chunk4M; CallAddSample chunk3600k;
                    CallAddSample chunk4M; CallReset;
                    CallAddSample chunk3600k]) _).
  discriminate.
Defined.

Lemma regular_estimate_is_the_lower_average_witness :
  estimate false (feed [segment4M] (newEstimator false))
  = Some 4000000%float /\
  JS.le 4000000%float
    (@EWMA_getEstimate _ meanEWMA
       (_slowEWMA (feed [segment4M] (newEstimator false)))) = true.
Proof.
  split; [reflexivity |].
  apply (@regular_estimate_is_the_lower_average _ meanEWMA sampleConfig
           4000000%float (feed [segment4M] (newEstimator false)));
    reflexivity.
Defined.

Lemma flag_never_lowers_the_estimate_witness :
  estimate false (feed [segment4M] threeChunks)
  = Some 3999999.9999999995%float /\
  exists r' : JS.number,
    estimate true (feed [segment4M] threeChunks) = Some r' /\
    (PrimFloat.is_nan r' = false ->
     JS.le 3999999.9999999995%float r' = true).
Proof.
  split; [reflexivity |].
  apply (@flag_never_lowers_the_estimate _ meanEWMA sampleConfig
           3999999.9999999995%float (feed [segment4M] threeChunks)).
  reflexivity.
Defined.

End EstimatorExtras.

(** ** The methods of the Player, one call at a time *)

Module PlayerCalls.

Import Player PlayerSpec PlayerInvariants PlayerProofs.

Local Open Scope player_scope.
Local Open Scope string_scope.
Local Open Scope list_scope.

Section Generic.

Context {AbrManager : Type} {abrManager : Adaptive_class AbrManager}.
Context {build : Build}.

Implicit Types p : Player.t AbrManager.

(** The value [_onBufferNext] records is neither [0] nor NaN. *)
Lemma bitrateOrMinusOne_truthy (r : option Representation) :
  JS.truthy (bitrateOrMinusOne r) = true.
Proof.
  destruct r as [r |]; simpl; [| reflexivity].
  destruct (JS.truthy (bitrate r)) eqn:H; [exact H | reflexivity].
Qed.

(** X8.  Once its resources are [null], the player refuses every call
    that needs one: [loadVideo], the four bitrate setters and the two
    getters of the bitrate ceilings throw, and so does every callback of
    the Stream, without anything reaching the [_stream$] bus. *)
Theorem disposed_player_rejects_calls p :
  disposed p ->
  (forall options,
     exists e, completion (loadVideo options) p = Throw (TypeError e)) /\
  (forall btr,
     (exists e, completion (setVideoBitrate btr) p = Throw e) /\
     (exists e, completion (setAudioBitrate btr) p = Throw e) /\
     completion (setMaxVideoBitrate btr) p
     = Throw (TypeError "_abrManager") /\
     completion (setMaxAudioBitrate btr) p
     = Throw (TypeError "_abrManager")) /\
  completion getMaxVideoBitrate p = Throw (TypeError "_abrManager") /\
  completion getMaxAudioBitrate p = Throw (TypeError "_abrManager") /\
  (forall cb,
     (exists e, completion (deliver cb) p = Throw e) /\
     streamBus (effects (exec (deliver cb) p)) = streamBus (effects p)).
Proof.
  intros H. destruct_player p. unfold disposed in H. simpl in H.
  destruct H as (-> & -> & -> & -> & -> & -> & -> & ->).
  split; [| split; [| split; [| split]]]; try reflexivity.
  - intros o. destruct st as [[] |]; run; eauto.
  - intros btr. split; [| split; [| split; reflexivity]].
    + destruct man; [| run; eauto]. run.
      repeat match goal with
             | |- context [if ?c then _ else _] => destruct c
             end; eauto.
    + destruct man; [| run; eauto]. run.
      repeat match goal with
             | |- context [if ?c then _ else _] => destruct c
             end; eauto.
  - intros cb.
    destruct cb as [[v | v | v | v | e | e | | ty] | err | | w].
    + (* a buffer event *)
      match goal with |- context [completion _ ?q] => set (p := q) end.
      destruct (_onBufferNext_step v p)
        as (p1 & new & E & F & _ & _ & S1 & B).
      assert (D : deliver (OnNext (SBuffer v)) p
                  = (Throw (TypeError "_stream$"), p1)).
      { unfold deliver, _onStreamNext. unfold bind at 1. rewrite E.
        now apply forwardToStream_without_stream. }
      unfold completion, exec. rewrite D. simpl.
      split; [eauto |].
      now rewrite F, streamBus_app, B, app_nil_r.
    + destruct v as [m l], build as [dev].
      destruct dev, m, l; run; (split; [eauto | bus]).
    + destruct v as [m l], build as [dev].
      destruct dev, m; run; (split; [eauto | bus]).
    + destruct v as [seg bt pr].
      unfold completion, exec, deliver, _onStreamNext.
      cbn [pipelineBufferType parsed].
      destruct (String.eqb bt "image"); [destruct pr |]; run;
        (split; [eauto | bus]).
    + run. split; [eauto | bus].
    + run. split; [eauto | bus].
    + run. split; [eauto | bus].
    + run. split; [eauto | bus].
    + destruct st as [[] |]; run; (split; [eauto | bus]).
    + destruct st as [[] |]; run; (split; [eauto | bus]).
    + run. split; [eauto | bus].
Qed.

(** The getters of a player whose content fields are as
    [_resetContentState] leaves them. *)
Lemma reset_fields_report_no_content p :
  _manifest p = None -> _currentAdaptations p = noTracks ->
  _recordedEvents p = ∅ ->
  _timeFragment p = {| start := None; end_ := None |} ->
  reportsNoContent p.
Proof.
  destruct_player p. simpl. intros -> -> -> ->.
  unfold reportsNoContent. repeat split.
Qed.

(** X9.  A new player, a player [stop] has stopped, and a player whose
    stream has failed or ended all report no content: [getManifest],
    [getCurrentAdaptations], [getCurrentRepresentations] and
    [getImageTrackData] return [null], no bitrate is recorded nor
    available, the time fragment has neither start nor end, and [isLive]
    and [getUrl] throw.  After a failure [getError] returns the error
    and the player is stopped; after the end it is [PLAYER_ENDED]. *)
Theorem no_content_after_reset (manager : AbrManager)
    (error : ErrorObject) p :
  reportsNoContent (new manager) /\
  (state p <> Some PLAYER_STOPPED -> reportsNoContent (exec stop p)) /\
  (reportsNoContent (exec (_onStreamError error) p) /\
   completion getError (exec (_onStreamError error) p)
   = Normal (Some error) /\
   state (exec (_onStreamError error) p) = Some PLAYER_STOPPED) /\
  (reportsNoContent (exec _onStreamComplete p) /\
   state (exec _onStreamComplete p) = Some PLAYER_ENDED).
Proof.
  split; [| split; [| split]].
  - apply reset_fields_report_no_content; reflexivity.
  - intros Hst. apply reset_fields_report_no_content;
      destruct_player p; simpl in Hst;
      destruct st as [[] |], cl; try contradiction; reflexivity.
  - split; [| split];
      [apply reset_fields_report_no_content | |];
      destruct_player p; destruct st as [[] |], cl, str; reflexivity.
  - split; [apply reset_fields_report_no_content |];
      destruct_player p; destruct st as [[] |], cl, str; reflexivity.
Qed.

(** X10.  A buffer event on a player with a manifest completes, and the
    getters give back what it carried: [getCurrentRepresentations()] and
    [getCurrentAdaptations()] hold its representation and its adaptation
    under its buffer type and are unchanged for the other types, and the
    bitrates available for that type are those of its adaptation, none
    when it has no adaptation. *)
Theorem buffer_event_round_trip (value : BufferValue) p :
  is_Some (_manifest p) ->
  completion (_onBufferNext value) p = Normal tt /\
  (exists reps,
     completion getCurrentRepresentations (exec (_onBufferNext value) p)
     = Normal (Some reps) /\
     reps !! bufferType value = Some (representation value) /\
     forall type, type <> bufferType value ->
       reps !! type = _currentRepresentations p !! type) /\
  (exists ads,
     completion getCurrentAdaptations (exec (_onBufferNext value) p)
     = Normal (Some ads) /\
     ads !! bufferType value = Some (adaptation value) /\
     forall type, type <> bufferType value ->
       ads !! type = _currentAdaptations p !! type) /\
  completion (availableBitrates (bufferType value))
    (exec (_onBufferNext value) p)
  = Normal match adaptation value with
           | Some a => getAvailableBitrates a
           | None => []
           end.
Proof.
  intros [m Hm].
  destruct (_onBufferNext_step value p) as (p' & new & E & _).
  unfold completion, exec. rewrite E. simpl.
  assert (F : _manifest p' = Some m /\
              _currentRepresentations p'
              = <[bufferType value := representation value]>
                  (_currentRepresentations p) /\
              _currentAdaptations p'
              = <[bufferType value := adaptation value]>
                  (_currentAdaptations p)).
  { replace p' with (exec (_onBufferNext value) p)
      by (unfold exec; now rewrite E).
    clear E. destruct_player p. destruct value as [bt a r].
    simpl in Hm. subst man.
    unfold exec, _onBufferNext. cbn [bufferType].
    destruct (String.eqb bt "video"), (String.eqb bt "audio");
      run;
      repeat match goal with
             | |- context [match ?c with Some _ => _ | None => _ end] =>
                 destruct c
             | |- context [if ?c then _ else _] => destruct c
             end; repeat split. }
  destruct F as (F1 & F2 & F3).
  split; [reflexivity |].
  unfold getCurrentRepresentations, getCurrentAdaptations,
    availableBitrates, bind, this, ret.
  rewrite F1, F2, F3. simpl.
  split; [| split].
  - eexists. split; [reflexivity |].
    split; [apply lookup_insert_eq |].
    intros type Hne. now apply lookup_insert_ne.
  - eexists. split; [reflexivity |].
    split; [apply lookup_insert_eq |].
    intros type Hne. now apply lookup_insert_ne.
  - rewrite lookup_insert_eq. now destruct (adaptation value).
Qed.

(** X11.  After a video buffer event [getVideoBitrate()] returns the
    bitrate of its representation, [-1] when it has no representation or
    one whose bitrate is [0] or NaN, and [getAudioBitrate()] returns what
    it returned before; the same with audio and video exchanged.  A
    buffer event of another type changes neither. *)
Theorem bitrate_getters_after_buffer_event (value : BufferValue) p :
  (bufferType value = "video" ->
   completion getVideoBitrate (exec (_onBufferNext value) p)
   = Normal (Some (bitrateOrMinusOne (representation value))) /\
   completion getAudioBitrate (exec (_onBufferNext value) p)
   = completion getAudioBitrate p) /\
  (bufferType value = "audio" ->
   completion getAudioBitrate (exec (_onBufferNext value) p)
   = Normal (Some (bitrateOrMinusOne (representation value))) /\
   completion getVideoBitrate (exec (_onBufferNext value) p)
   = completion getVideoBitrate p) /\
  (bufferType value <> "video" -> bufferType value <> "audio" ->
   completion getVideoBitrate (exec (_onBufferNext value) p)
   = completion getVideoBitrate p /\
   completion getAudioBitrate (exec (_onBufferNext value) p)
   = completion getAudioBitrate p).
Proof.
  destruct_player p. destruct value as [bt a r]. cbn [bufferType].
  pose proof (bitrateOrMinusOne_truthy r) as Ht.
  split; [| split].
  - intros ->. cbn [representation].
    destruct (rec !! "videoBitrate") as [y |] eqn:Hy.
    + destruct (JS.strict_neq y (bitrateOrMinusOne r)) eqn:Hd;
        run; rewrite Hy; run; rewrite Hd; run.
      * rewrite lookup_insert_eq, lookup_insert_ne by discriminate.
        split; reflexivity.
      * rewrite Hy. split; [| reflexivity]. do 2 f_equal.
        apply NumberFacts.eqb_truthy_eq; [| exact Ht].
        unfold JS.strict_neq in Hd. now apply negb_false_iff in Hd.
    + run; rewrite Hy; run.
      rewrite lookup_insert_eq, lookup_insert_ne by discriminate.
      split; reflexivity.
  - intros ->. cbn [representation].
    destruct (rec !! "audioBitrate") as [y |] eqn:Hy.
    + destruct (JS.strict_neq y (bitrateOrMinusOne r)) eqn:Hd;
        run; rewrite Hy; run; rewrite Hd; run.
      * rewrite lookup_insert_eq, lookup_insert_ne by discriminate.
        split; reflexivity.
      * rewrite Hy. split; [| reflexivity]. do 2 f_equal.
        apply NumberFacts.eqb_truthy_eq; [| exact Ht].
        unfold JS.strict_neq in Hd. now apply negb_false_iff in Hd.
    + run; rewrite Hy; run.
      rewrite lookup_insert_eq, lookup_insert_ne by discriminate.
      split; reflexivity.
  - intros Hv Ha.
    apply String.eqb_neq in Hv, Ha.
    unfold completion, exec, _onBufferNext. cbn [bufferType].
    rewrite Hv, Ha. run. split; reflexivity.
Qed.

(** Running a method, the test of [setVideoBitrate] and
    [setAudioBitrate] left as it is. *)
Ltac run_keeping_test :=
  lazy -[orb includes PrimFloat.eqb insert lookup empty map_insert
         gmap_lookup gmap_partial_alter gmap_empty String.eq_dec
         String.countable JS.number getAvailableBitrates
         Abr_setVideoBitrate Abr_setAudioBitrate].

Lemma includes_nan (bitrates : list JS.number) :
  includes nan bitrates = false.
Proof.
  induction bitrates as [| b l IH]; [reflexivity |].
  unfold includes in *. simpl. rewrite IH, orb_false_r.
  rewrite FloatAxioms.eqb_spec. unfold SFeqb, SFcompare.
  change (Prim2SF nan) with S754_nan. now destruct (Prim2SF b).
Qed.

(** X12.  On a player with a manifest and its ABR manager,
    [setVideoBitrate(btr)] is accepted exactly when [btr] is [0] or one
    of the bitrates of the current video adaptation: it then hands [btr]
    to the ABR manager and changes nothing else; otherwise it throws and
    changes nothing.  NaN is never accepted.  [setAudioBitrate] does the
    same with the audio adaptation. *)
Theorem setBitrate_accepts_available (btr : JS.number) p (m : Manifest)
    (manager : AbrManager) :
  _manifest p = Some m -> _abrManager p = Some manager ->
  (if PrimFloat.eqb btr 0
      || includes btr match _currentAdaptations p !! "video" with
                      | Some (Some a) => getAvailableBitrates a
                      | _ => []
                      end
   then setVideoBitrate btr p
        = (Normal tt,
           set_abrManager (Some (Abr_setVideoBitrate btr manager)) p)
   else setVideoBitrate btr p
        = (Throw (AssertionError "player: video bitrate unavailable"), p)) /\
  (if PrimFloat.eqb btr 0
      || includes btr match _currentAdaptations p !! "audio" with
                      | Some (Some a) => getAvailableBitrates a
                      | _ => []
                      end
   then setAudioBitrate btr p
        = (Normal tt,
           set_abrManager (Some (Abr_setAudioBitrate btr manager)) p)
   else setAudioBitrate btr p
        = (Throw (AssertionError "player: audio bitrate unavailable"), p)) /\
  setVideoBitrate nan p
  = (Throw (AssertionError "player: video bitrate unavailable"), p) /\
  setAudioBitrate nan p
  = (Throw (AssertionError "player: audio bitrate unavailable"), p).
Proof.
  intros Hm Ha. destruct_player p. simpl in Hm, Ha. subst man abr.
  cbn [_currentAdaptations].
  split; [| split; [| split]].
  - destruct (_ || _) eqn:Hc; run_keeping_test; rewrite Hc; reflexivity.
  - destruct (_ || _) eqn:Hc; run_keeping_test; rewrite Hc; reflexivity.
  - run_keeping_test. rewrite includes_nan. reflexivity.
  - run_keeping_test. rewrite includes_nan. reflexivity.
Qed.

(** X13.  [inferPlayerState] answers with one of [PLAYER_SEEKING],
    [PLAYER_BUFFERING], [PLAYER_PLAYING] and [PLAYER_PAUSED], never with
    [PLAYER_STOPPED], [PLAYER_LOADING], [PLAYER_LOADED] or
    [PLAYER_ENDED]; while the content is stalled the answer does not
    depend on [isPlaying], and it is [PLAYER_SEEKING] or
    [PLAYER_BUFFERING] exactly then. *)
Theorem inferPlayerState_range (isPlaying : bool)
    (stalled : option Stalled) :
  In (inferPlayerState isPlaying stalled)
     [PLAYER_SEEKING; PLAYER_BUFFERING; PLAYER_PLAYING; PLAYER_PAUSED] /\
  (is_Some stalled <->
   In (inferPlayerState isPlaying stalled)
      [PLAYER_SEEKING; PLAYER_BUFFERING]) /\
  (inferPlayerState isPlaying stalled
   = inferPlayerState (negb isPlaying) stalled \/ stalled = None).
Proof.
  unfold inferPlayerState.
  destruct stalled as [[name] |]; simpl.
  - destruct (String.eqb name "seeking"); simpl;
      (split; [tauto |]); (split; [| tauto]);
      (split; [tauto | eauto]).
  - destruct isPlaying; simpl;
      (split; [tauto |]); (split; [| tauto]);
      (split; [intros [x Hx]; discriminate |]);
      intros [H | [H | []]]; discriminate.
Qed.


(** X15.  A manifest event that carries a manifest and a language
    manager, on a player that holds [_stream$]: its handler completes,
    and then [getManifest()] returns that manifest, [isLive()] and
    [getUrl()] answer from it, [manifestChange] has been emitted with it
    and the language subscriptions are made.  A manifest update replaces
    the manifest the same way, emits [manifestUpdate], and leaves the
    language manager as it is. *)
Theorem manifest_event_round_trip (value : ManifestValue) p
    (m : Manifest) :
  manifest value = Some m -> is_Some (_stream' p) ->
  (forall l : LanguageManager,
     languageManager value = Some l ->
     completion (_onStreamNext (SManifest value)) p = Normal tt /\
     completion getManifest (exec (_onStreamNext (SManifest value)) p)
     = Normal (Some m) /\
     completion isLive_ (exec (_onStreamNext (SManifest value)) p)
     = Normal (isLive m) /\
     completion getUrl (exec (_onStreamNext (SManifest value)) p)
     = Normal (manifestUrl m) /\
     effects (exec (_onStreamNext (SManifest value)) p)
     = effects p
       ++ [Trigger "manifestChange" (PManifest (Some m));
           LanguageSubscriptions l;
           StreamNext (SManifest value); StreamNext (SManifest value)]) /\
  (completion (_onStreamNext (SManifestUpdate value)) p = Normal tt /\
   completion getManifest (exec (_onStreamNext (SManifestUpdate value)) p)
   = Normal (Some m) /\
   _languageManager (exec (_onStreamNext (SManifestUpdate value)) p)
   = _languageManager p /\
   effects (exec (_onStreamNext (SManifestUpdate value)) p)
   = effects p
     ++ [Trigger "manifestUpdate" (PManifest (Some m));
         StreamNext (SManifestUpdate value);
         StreamNext (SManifestUpdate value)]).
Proof.
  intros Hm [s Hs]. destruct_player p. destruct value as [vm vl].
  simpl in Hm, Hs. subst vm str. destruct m as [live url].
  split.
  - intros l Hl. simpl in Hl. subst vl.
    destruct build as [[]]; run; rewrite <- ?app_assoc; repeat split.
  - destruct build as [[]]; run; rewrite <- ?app_assoc; repeat split.
Qed.

End Generic.

(** *** On a run *)

Import Instances.

#[local] Existing Instance devBuild.
#[local] Existing Instance loggingManager.

Lemma disposed_player_rejects_calls_witness :
  disposed (exec dispose freshPlayer) /\
  exists e,
    completion (loadVideo sampleOptions) (exec dispose freshPlayer)
    = Throw (TypeError e).
Proof.
  assert (H : disposed (exec dispose freshPlayer)) by (repeat split).
  split; [exact H |].
  apply (disposed_player_rejects_calls (exec dispose freshPlayer) H).
Defined.

Lemma no_content_after_reset_witness :
  state playingPlayer = Some PLAYER_PLAYING /\
  completion getManifest playingPlayer
  = Normal (manifest sampleManifest) /\
  reportsNoContent (exec stop playingPlayer).
Proof.
  split; [reflexivity |]. split; [reflexivity |].
  refine (proj1 (proj2 (no_content_after_reset [] sampleError
                          playingPlayer)) _).
  discriminate.
Defined.

Lemma buffer_event_round_trip_witness :
  is_Some (_manifest playingPlayer) /\
  completion getAvailableVideoBitrates
    (exec (_onBufferNext sampleBuffer) playingPlayer)
  = Normal [1000000%float; 2000000%float].
Proof.
  assert (H : is_Some (_manifest playingPlayer))
    by (eexists; reflexivity).
  split; [exact H |].
  exact (proj2 (proj2 (proj2
           (buffer_event_round_trip sampleBuffer playingPlayer H)))).
Defined.

Lemma bitrate_getters_after_buffer_event_witness :
  completion getVideoBitrate (exec (_onBufferNext sampleBuffer) freshPlayer)
  = Normal (Some 2000000%float) /\
  completion getAudioBitrate (exec (_onBufferNext sampleBuffer) freshPlayer)
  = Normal None.
Proof.
  exact (proj1 (bitrate_getters_after_buffer_event sampleBuffer freshPlayer)
           eq_refl).
Defined.

Lemma setBitrate_accepts_available_witness :
  completion (setVideoBitrate 2000000%float) playingPlayer = Normal tt /\
  completion (setVideoBitrate 3000000%float) playingPlayer
  = Throw (AssertionError "player: video bitrate unavailable").
Proof.
  split.
  - exact (f_equal fst
             (proj1 (setBitrate_accepts_available 2000000%float
                       playingPlayer _ [] eq_refl eq_refl))).
  - exact (f_equal fst
             (proj1 (setBitrate_accepts_available 3000000%float
                       playingPlayer _ [] eq_refl eq_refl))).
Defined.


Lemma manifest_event_round_trip_witness :
  completion getUrl
    (exec (_onStreamNext (SManifest sampleManifest))
       (exec (loadVideo sampleOptions) freshPlayer))
  = Normal "https://example.com/manifest.mpd".
Proof.
  assert (H : is_Some (_stream' (exec (loadVideo sampleOptions) freshPlayer)))
    by (eexists; reflexivity).
  destruct (manifest_event_round_trip sampleManifest
              (exec (loadVideo sampleOptions) freshPlayer) _ eq_refl H)
    as [F _].
  destruct (F _ eq_refl) as (_ & _ & _ & U & _). exact U.
Defined.

End PlayerCalls.

(** ** More on the Player *)

Module PlayerExtras.

Import Player PlayerSpec PlayerInvariants PlayerProofs PlayerCalls.

Local Open Scope player_scope.
Local Open Scope string_scope.
Local Open Scope list_scope.

(** *** Relations every method keeps *)

Section Respects.

Context {AbrManager : Type} {abrManager : Adaptive_class AbrManager}.

Implicit Types p : Player.t AbrManager.

Variable R : Player.t AbrManager -> Player.t AbrManager -> Prop.
Hypothesis R_refl : forall p, R p p.
Hypothesis R_trans : forall p q r, R p q -> R q r -> R p r.

Lemma respects_ret {A} (a : A) : respects R (ret a).
Proof. intros p. apply R_refl. Qed.

Lemma respects_throw {A} (e : Exn) : respects R (throw (A := A) e).
Proof. intros p. apply R_refl. Qed.

Lemma respects_this : respects R this.
Proof. intros p. apply R_refl. Qed.

Lemma respects_deref {A} (field : Player.t AbrManager -> option A)
    (name : string) :
  respects R (deref field name).
Proof. intros p. unfold exec, deref. destruct (field p); apply R_refl. Qed.

Lemma respects_assert (cond : bool) (msg : string) :
  respects R (assert cond msg).
Proof. intros p. destruct cond; apply R_refl. Qed.

Lemma respects_bind {A B} (c : M AbrManager A) (k : A -> M AbrManager B) :
  respects R c -> (forall a, respects R (k a)) -> respects R (bind c k).
Proof.
  intros Hc Hk p. specialize (Hc p). unfold exec, bind in *.
  destruct (c p) as [[a | e] p'] eqn:E; simpl in *; [| exact Hc].
  eapply R_trans; [exact Hc | apply Hk].
Qed.

Lemma respects_when (cond : bool) (body : M AbrManager unit) :
  respects R body -> respects R (when cond body).
Proof. intros H. destruct cond; [exact H | apply respects_ret]. Qed.

Lemma respects_update (f : Player.t AbrManager -> Player.t AbrManager) :
  (forall p, R p (f p)) -> respects R (update f).
Proof. intros H p. apply H. Qed.

(** A relation kept by every call is kept by every run of calls. *)
Lemma respects_performAll {build : Build} :
  (forall c, respects R (perform c)) ->
  forall calls p, R p (performAll calls p).
Proof.
  intros H calls. unfold performAll.
  induction calls as [| c calls IH]; intros p; simpl; [apply R_refl |].
  eapply R_trans; [apply H | apply IH].
Qed.

End Respects.

(** Taking a method apart down to its assignments and emissions. *)
Ltac respects_step Hrefl Htrans :=
  lazymatch goal with
  | |- respects ?R (bind _ _) =>
      apply (respects_bind R Htrans); [| intros ?]
  | |- respects ?R (ret _) => apply (respects_ret R Hrefl)
  | |- respects ?R (throw _) => apply (respects_throw R Hrefl)
  | |- respects ?R this => apply (respects_this R Hrefl)
  | |- respects ?R (deref _ _) => apply (respects_deref R Hrefl)
  | |- respects ?R (assert _ _) => apply (respects_assert R Hrefl)
  | |- respects ?R (when _ _) => apply (respects_when R Hrefl)
  | |- respects ?R (match ?x with _ => _ end) => destruct x
  end.

Ltac unfold_methods :=
  unfold perform, deliver, loadVideo, dispose, stop, _resetContentState,
    _onStreamNext, _onErrorStreamNext, _onStreamError, _onStreamComplete,
    _onManifestNext, _onManifestUpdateNext, _onBufferNext,
    _addLanguageSubscriptions, forwardToStream, clearLoaded_next,
    _triggerTimeChange_undefined, trigger, setVideoBitrate, setAudioBitrate,
    setMaxVideoBitrate, setMaxAudioBitrate, setWantedBufferAhead,
    setMaxBufferAhead, setMaxBufferBehind, getAvailableVideoBitrates,
    getAvailableAudioBitrates, availableBitrates, assertManifest.

Section Invariants.

Context {AbrManager : Type} {abrManager : Adaptive_class AbrManager}.
Context {build : Build}.

Implicit Types p : Player.t AbrManager.

Lemma dispose_or_not (c : Call) : c = CallDispose \/ c <> CallDispose.
Proof. destruct c; (left; reflexivity) || (right; discriminate). Qed.

(** *** [this.state] and [playerStateChange] *)

Lemma tracksState_refl p : tracksState p p.
Proof. exists []. split; [now rewrite app_nil_r | reflexivity]. Qed.

Lemma stateChain_app st l st' l' st'' :
  stateChain st l st' -> stateChain st' l' st'' ->
  stateChain st (l ++ l') st''.
Proof.
  revert st. induction l as [| x l IH]; intros st H H'; simpl in *.
  - now subst st'.
  - destruct H as [Hx H]. split; [exact Hx |]. now apply IH.
Qed.

Lemma tracksState_trans p q r :
  tracksState p q -> tracksState q r -> tracksState p r.
Proof.
  intros (l & E & C) (l' & E' & C'). exists (l ++ l').
  split; [now rewrite E', E, app_assoc |].
  eapply stateChain_app; eassumption.
Qed.

Lemma stateEmitted_app (l l' : list (Effect AbrManager)) :
  stateEmitted (l ++ l') = stateEmitted l ++ stateEmitted l'.
Proof. apply omap_app. Qed.

Lemma tracksState_emit (e : Effect AbrManager) :
  stateEmitted [e] = [] -> respects (@tracksState AbrManager) (emit e).
Proof.
  intros H p. exists []. split; [| reflexivity].
  rewrite app_nil_r, <- (app_nil_r (stateEmitted (effects p))), <- H.
  exact (stateEmitted_app (effects p) [e]).
Qed.

Lemma tracksState_setPlayerState (s : PlayerState) :
  respects (@tracksState AbrManager) (_setPlayerState s).
Proof.
  intros p. unfold exec, _setPlayerState, bind, this, when.
  destruct (decide (state p = Some s)) as [H | H].
  - rewrite bool_decide_eq_true_2 by exact H. simpl. apply tracksState_refl.
  - rewrite bool_decide_eq_false_2 by exact H.
    exists [s]. split.
    + exact (stateEmitted_app (effects p)
               [Trigger "playerStateChange" (PPlayerState s)]).
    + split; [congruence | reflexivity].
Qed.

Lemma tracksState_recordState (type : string) (value : JS.number) :
  respects (@tracksState AbrManager) (_recordState type value).
Proof.
  intros p. unfold exec, _recordState, bind, this, when.
  destruct (match _recordedEvents p !! type with
            | Some prev => JS.strict_neq prev value
            | None => true
            end); simpl; [| apply tracksState_refl].
  exists []. split; [| reflexivity].
  exact (stateEmitted_app (effects p)
           [Trigger (type ++ "Change")%string (PNumber value)]).
Qed.

Ltac tracksState_leaf :=
  first
    [ apply tracksState_setPlayerState
    | apply tracksState_recordState
    | apply tracksState_emit; reflexivity
    | apply (respects_update _); intros ?; exists [];
      split; [exact (eq_sym (app_nil_r _)) | reflexivity] ].

Lemma tracksState_perform (c : Call) :
  respects (@tracksState AbrManager) (perform c).
Proof.
  destruct c as [o | | | b | b | b | b | b | b | b | cb | x];
    [.. | destruct cb as [[] | | |] |];
    unfold_methods;
    repeat first
      [ respects_step tracksState_refl tracksState_trans
      | tracksState_leaf ].
Qed.

Lemma statesDiffer_snoc (l : list PlayerState) (x : PlayerState) :
  statesDiffer l -> last l <> Some x -> statesDiffer (l ++ [x]).
Proof.
  induction l as [| y [| z l] IH]; simpl; intros H Hx.
  - exact I.
  - split; [congruence | exact I].
  - destruct H as [Hyz H]. split; [exact Hyz |]. apply IH; assumption.
Qed.

Lemma stateChain_extends (l0 l : list PlayerState) st st' :
  last l0 = st -> statesDiffer l0 -> stateChain st l st' ->
  last (l0 ++ l) = st' /\ statesDiffer (l0 ++ l).
Proof.
  revert l0 st. induction l as [| x l IH]; intros l0 st Hl Hd Hc;
    simpl in Hc.
  - rewrite app_nil_r. subst. auto.
  - destruct Hc as [Hx Hc].
    replace (l0 ++ x :: l) with ((l0 ++ [x]) ++ l)
      by now rewrite <- app_assoc.
    apply (IH (l0 ++ [x]) (Some x)); [apply last_snoc | | exact Hc].
    apply statesDiffer_snoc; [exact Hd | congruence].
Qed.

Lemma tracksState_keeps p p' :
  stateTracked p -> tracksState p p' -> stateTracked p'.
Proof.
  intros [Hl Hd] (l & E & C). unfold stateTracked. rewrite E.
  eapply stateChain_extends; eassumption.
Qed.

(** X16.  Through every run of calls on a new player (calls of its user,
    callbacks of the Stream, state changes of the content), [this.state]
    is the state carried by the last [playerStateChange] event, and no two
    consecutive [playerStateChange] events carry the same state. *)
Theorem playerStateChange_follows_state (abr : AbrManager)
    (calls : list Call) :
  let p := performAll calls (new abr) in
  last (stateEmitted (effects p)) = state p /\
  statesDiffer (stateEmitted (effects p)).
Proof.
  intros p.
  apply (tracksState_keeps (new abr)).
  - split; [reflexivity | exact I].
  - apply (respects_performAll _ tracksState_refl tracksState_trans).
    exact tracksState_perform.
Qed.

(** *** The recorded bitrates *)

Lemma keepsRecordedTruthy_refl p : keepsRecordedTruthy p p.
Proof. intros H. exact H. Qed.

Lemma keepsRecordedTruthy_trans p q r :
  keepsRecordedTruthy p q -> keepsRecordedTruthy q r ->
  keepsRecordedTruthy p r.
Proof. unfold keepsRecordedTruthy. auto. Qed.

Lemma keepsRecordedTruthy_recordState (type : string) (value : JS.number) :
  JS.truthy value = true ->
  respects (@keepsRecordedTruthy AbrManager) (_recordState type value).
Proof.
  intros Hv p Hp. unfold exec, _recordState, bind, this, when.
  destruct (match _recordedEvents p !! type with
            | Some prev => JS.strict_neq prev value
            | None => true
            end); simpl; [| exact Hp].
  intros key v. simpl.
  destruct (decide (type = key)) as [-> | Hne].
  - rewrite lookup_insert_eq. now intros [= <-].
  - rewrite lookup_insert_ne by exact Hne. apply Hp.
Qed.

Lemma keepsRecordedTruthy_reset :
  respects (@keepsRecordedTruthy AbrManager)
    (update (set_recordedEvents ∅)).
Proof. intros p _ key v. simpl. now rewrite lookup_empty. Qed.

Ltac keepsRecordedTruthy_leaf :=
  first
    [ apply keepsRecordedTruthy_reset
    | apply keepsRecordedTruthy_recordState, bitrateOrMinusOne_truthy
    | apply (respects_update _); intros ? H; exact H ].

Lemma keepsRecordedTruthy_perform (c : Call) :
  respects (@keepsRecordedTruthy AbrManager) (perform c).
Proof.
  destruct c as [o | | | b | b | b | b | b | b | b | cb | x];
    [.. | destruct cb as [[] | | |] |];
    unfold_methods; unfold _setPlayerState, trigger, emit;
    repeat first
      [ respects_step keepsRecordedTruthy_refl keepsRecordedTruthy_trans
      | keepsRecordedTruthy_leaf ].
Qed.

(** X17.  Through every run of calls on a new player, a recorded bitrate
    is a truthy number: [getVideoBitrate()] and [getAudioBitrate()] return
    [undefined] or a number that is neither [0] nor NaN. *)
Theorem recorded_bitrates_are_truthy (abr : AbrManager)
    (calls : list Call) :
  let p := performAll calls (new abr) in
  recordedTruthy p /\
  forall v : JS.number,
    completion getVideoBitrate p = Normal (Some v) \/
    completion getAudioBitrate p = Normal (Some v) ->
    JS.truthy v = true.
Proof.
  intros p.
  assert (H : recordedTruthy p).
  { apply (respects_performAll _ keepsRecordedTruthy_refl
             keepsRecordedTruthy_trans keepsRecordedTruthy_perform
             calls (new abr)).
    intros key v. simpl. now rewrite lookup_empty. }
  split; [exact H |].
  intros v [E | E]; unfold completion, getVideoBitrate, getAudioBitrate,
    bind, this, ret in E; simpl in E; injection E as E;
    exact (H _ _ E).
Qed.

(** *** The resources [dispose] releases *)

Lemma sameHandles_refl p : sameHandles p p.
Proof. repeat split; auto. Qed.

Lemma sameHandles_trans p q r :
  sameHandles p q -> sameHandles q r -> sameHandles p r.
Proof.
  unfold sameHandles.
  intros (A1 & A2 & A3 & A4 & A5 & A6 & A7 & A8)
         (B1 & B2 & B3 & B4 & B5 & B6 & B7 & B8).
  rewrite B1, B2, B4, B5, B6, B7, B8, B3. auto 10.
Qed.

Lemma sameHandles_setting (f : AbrManager -> AbrManager) (name : string) :
  respects (@sameHandles AbrManager)
    (abr <- deref _abrManager name ;;
     update (set_abrManager (Some (f abr)))).
Proof.
  intros p. unfold exec, bind, deref, update.
  destruct (_abrManager p) as [abr |] eqn:E; simpl;
    [| apply sameHandles_refl].
  unfold sameHandles. simpl. rewrite E.
  repeat split; auto; intros _; eexists; reflexivity.
Qed.

Ltac sameHandles_leaf :=
  first
    [ apply sameHandles_setting
    | apply (respects_update _); intros ?; repeat apply conj;
      first [ reflexivity | exact (fun H => H) ] ].

(** Every call but [dispose] leaves the eight fields as they are. *)
Lemma sameHandles_perform (c : Call) :
  c <> CallDispose -> respects (@sameHandles AbrManager) (perform c).
Proof.
  intros Hc.
  destruct c as [o | | | b | b | b | b | b | b | b | cb | x];
    [.. | destruct cb as [[] | | |] |]; try contradiction;
    unfold_methods; unfold _setPlayerState, _recordState, trigger, emit;
    repeat first
      [ sameHandles_leaf
      | respects_step sameHandles_refl sameHandles_trans ].
Qed.

Lemma sameHandles_holds p p' :
  sameHandles p p' ->
  (holdsResources p -> holdsResources p') /\ (disposed p -> disposed p').
Proof.
  unfold sameHandles, holdsResources, disposed.
  intros (A1 & A2 & A3 & A4 & A5 & A6 & A7 & A8).
  rewrite A1, A2, A4, A5, A6, A7, A8. split.
  - intros (H1 & H2 & H3 & H4 & H5 & H6 & H7 & H8).
    repeat apply conj; try assumption. now apply A3.
  - intros (H1 & H2 & H3 & H4 & H5 & H6 & H7 & H8).
    repeat apply conj; try assumption.
    destruct (_abrManager p') eqn:E; [| reflexivity].
    destruct (proj1 A3) as [x Hx]; [eauto | congruence].
Qed.

Lemma dispose_releases p :
  (holdsResources p -> disposed (exec dispose p)) /\
  (disposed p -> disposed (exec dispose p)).
Proof.
  destruct_player p. unfold holdsResources, disposed. simpl. split.
  - intros ([c ->] & [m ->] & [a ->] & [f ->] & [s ->] & [e ->] & _).
    destruct st as [[] |]; run; repeat split.
  - intros (-> & -> & -> & -> & -> & -> & -> & ->).
    destruct st as [[] |]; run; repeat split.
Qed.

(** X18.  The eight resources of a player go together: through every run
    of calls on a new player either all of them are held or all of them
    are [null]; they are all held as long as [dispose] has not been
    called, and once they are [null] no call brings any of them back. *)
Theorem resources_go_together (abr : AbrManager) (calls : list Call) :
  let p := performAll calls (new abr) in
  (holdsResources p \/ disposed p) /\
  (~ In CallDispose calls -> holdsResources p) /\
  (forall more : list Call,
     disposed p -> disposed (performAll more p)).
Proof.
  intros p.
  assert (Hstep : forall c q,
            (holdsResources q -> (c <> CallDispose ->
                                  holdsResources (exec (perform c) q)) /\
                                 (holdsResources (exec (perform c) q) \/
                                  disposed (exec (perform c) q))) /\
            (disposed q -> disposed (exec (perform c) q))).
  { intros c q. destruct (dispose_or_not c) as [-> | Hc].
    - destruct (dispose_releases q) as [H1 H2].
      split; [| exact H2]. intros H. split; [congruence |].
      right. now apply H1.
    - destruct (sameHandles_holds q _ (sameHandles_perform c Hc q))
        as [H1 H2].
      split; [| exact H2]. intros H. split; [auto |]. left. now apply H1. }
  assert (Hnew : holdsResources (new abr))
    by (repeat split; eexists; reflexivity).
  assert (Hdisp : forall more q, disposed q -> disposed (performAll more q)).
  { intros more. unfold performAll.
    induction more as [| c more IH]; intros q Hq; simpl; [exact Hq |].
    apply IH. now apply Hstep. }
  subst p. unfold performAll. revert Hnew. generalize (new abr).
  induction calls as [| c calls IH]; intros q Hq; simpl.
  - split; [now left |]. split; [auto |].
    exact (fun more Hd => Hdisp more q Hd).
  - destruct (Hstep c q) as [H1 _]. destruct (H1 Hq) as [Hkeep [H | H]].
    + destruct (IH _ H) as (I1 & I2 & I3).
      split; [exact I1 |]. split; [| exact I3].
      intros Hin. apply I2. tauto.
    + split; [right; exact (Hdisp calls _ H) |].
      split; [| exact (fun more Hd => Hdisp more _ Hd)].
      intros Hin. destruct (dispose_or_not c) as [-> | Hc];
        [tauto |].
      destruct (IH _ (Hkeep Hc)) as (_ & I2 & _). apply I2. tauto.
Qed.

(** *** [this.adaptive] *)

Lemma keepsAdaptiveUndefined_refl p : keepsAdaptiveUndefined p p.
Proof. intros H. exact H. Qed.

Lemma keepsAdaptiveUndefined_trans p q r :
  keepsAdaptiveUndefined p q -> keepsAdaptiveUndefined q r ->
  keepsAdaptiveUndefined p r.
Proof. unfold keepsAdaptiveUndefined. auto. Qed.

Lemma keepsAdaptiveUndefined_setting (f : AbrManager -> AbrManager)
    (name : string) :
  respects (@keepsAdaptiveUndefined AbrManager)
    (a <- deref adaptive name ;; update (set_adaptive (Some (f a)))).
Proof.
  intros p Hp. unfold exec, bind, deref. now rewrite Hp.
Qed.

Ltac keepsAdaptiveUndefined_leaf :=
  first
    [ apply keepsAdaptiveUndefined_setting
    | apply (respects_update _); intros ? H; exact H ].

Lemma keepsAdaptiveUndefined_perform (c : Call) :
  respects (@keepsAdaptiveUndefined AbrManager) (perform c).
Proof.
  destruct c as [o | | | b | b | b | b | b | b | b | cb | x];
    [.. | destruct cb as [[] | | |] |];
    unfold_methods; unfold _setPlayerState, _recordState, trigger, emit;
    repeat first
      [ keepsAdaptiveUndefined_leaf
      | respects_step keepsAdaptiveUndefined_refl
          keepsAdaptiveUndefined_trans ].
Qed.

(** X19.  No call assigns [this.adaptive]: through every run of calls on
    a new player it is [undefined], so [setWantedBufferAhead],
    [setMaxBufferAhead] and [setMaxBufferBehind] throw a [TypeError] and
    change nothing, whatever their argument. *)
Theorem buffer_bound_setters_always_throw (manager : AbrManager)
    (calls : list Call) (seconds : JS.number) :
  let p := performAll calls (new manager) in
  setWantedBufferAhead seconds p = (Throw (TypeError "adaptive"), p) /\
  setMaxBufferAhead seconds p = (Throw (TypeError "adaptive"), p) /\
  setMaxBufferBehind seconds p = (Throw (TypeError "adaptive"), p).
Proof.
  intros p.
  assert (H : adaptive p = None).
  { apply (respects_performAll _ keepsAdaptiveUndefined_refl
             keepsAdaptiveUndefined_trans keepsAdaptiveUndefined_perform
             calls (new manager)).
    reflexivity. }
  unfold setWantedBufferAhead, setMaxBufferAhead, setMaxBufferBehind,
    bind, deref.
  rewrite H. repeat split.
Qed.

(** *** The [_stream$] bus *)

Lemma forwardsInPairs_refl p : forwardsInPairs p p.
Proof. exists []. simpl. now rewrite app_nil_r. Qed.

Lemma forwardsInPairs_trans p q r :
  forwardsInPairs p q -> forwardsInPairs q r -> forwardsInPairs p r.
Proof.
  intros [l E] [l' E']. exists (l ++ l').
  now rewrite E', E, flat_map_app, app_assoc.
Qed.

Lemma forwardsInPairs_emit (e : Effect AbrManager) :
  streamBus [e] = [] -> respects (@forwardsInPairs AbrManager) (emit e).
Proof.
  intros H p. exists [].
  change (effects (exec (emit e) p)) with (effects p ++ [e]).
  now rewrite streamBus_app, H.
Qed.

Lemma forwardsInPairs_forward (x : StreamInfos) :
  respects (@forwardsInPairs AbrManager) (forwardToStream x).
Proof.
  intros p. destruct_player p. destruct str as [s |].
  - exists [x]. run. bus.
  - exists []. run. bus.
Qed.

Ltac forwardsInPairs_leaf :=
  first
    [ apply forwardsInPairs_forward
    | apply forwardsInPairs_emit; reflexivity
    | apply (respects_update _); intros ?; exists [];
      exact (eq_sym (app_nil_r _)) ].

Lemma forwardsInPairs_perform (c : Call) :
  respects (@forwardsInPairs AbrManager) (perform c).
Proof.
  destruct c as [o | | | b | b | b | b | b | b | b | cb | x];
    [.. | destruct cb as [[] | | |] |];
    unfold_methods; unfold _setPlayerState, _recordState, trigger;
    repeat first
      [ forwardsInPairs_leaf
      | respects_step forwardsInPairs_refl forwardsInPairs_trans ].
Qed.

(** X20.  Through every run of calls on a new player, the [_stream$] bus
    has received its objects two by two: each object a handler forwards
    is forwarded twice in a row, or, when the handler throws, not at
    all. *)
Theorem stream_bus_carries_pairs (manager : AbrManager)
    (calls : list Call) :
  exists l : list StreamInfos,
    streamBus (effects (performAll calls (new manager)))
    = flat_map (fun x => [x; x]) l.
Proof.
  exact (respects_performAll _ forwardsInPairs_refl forwardsInPairs_trans
           forwardsInPairs_perform calls (new manager)).
Qed.

End Invariants.

(** *** On a run *)

Import Instances.

#[local] Existing Instance devBuild.
#[local] Existing Instance loggingManager.

Lemma recorded_bitrates_are_truthy_witness :
  completion getVideoBitrate playingPlayer = Normal (Some 2000000%float) /\
  JS.truthy 2000000%float = true.
Proof.
  split; [reflexivity |].
  apply (proj2 (recorded_bitrates_are_truthy [] sampleRun) 2000000%float).
  left. reflexivity.
Defined.

Lemma resources_go_together_witness :
  holdsResources playingPlayer /\
  disposed (performAll [CallStop; CallLoadVideo sampleOptions]
              (performAll (sampleRun ++ [CallDispose]) (new []))).
Proof.
  split.
  - refine (proj1 (proj2 (resources_go_together [] sampleRun)) _).
    intros [H | [H | [H | [H | [H | []]]]]]; discriminate H.
  - assert (H : disposed (performAll (sampleRun ++ [CallDispose]) (new [])))
      by (vm_compute; repeat split).
    exact (proj2 (proj2 (resources_go_together []
                           (sampleRun ++ [CallDispose])))
             [CallStop; CallLoadVideo sampleOptions] H).
Defined.

End PlayerExtras.

(** ** The volume *)

Module VolumeProofs.

Import Volume.

Local Open Scope list_scope.

(** A number no smaller than another one is not NaN. *)
Lemma leb_not_nan (x y : JS.number) :
  JS.le x y = true -> PrimFloat.is_nan y = false.
Proof.
  unfold JS.le, PrimFloat.is_nan. rewrite leb_spec, FloatAxioms.eqb_spec.
  unfold SFleb, SFeqb, SFcompare.
  destruct (Prim2SF x) as [s | s | | s m e],
           (Prim2SF y) as [s' | s' | | s' m' e'];
    intros H; try discriminate; try reflexivity;
    try (destruct s'; reflexivity).
  all: destruct s'; rewrite Z.compare_refl, Pos.compare_cont_refl;
    reflexivity.
Qed.

(** A falsy volume is one of the two zeros. *)
Lemma falsy_in_range (v : JS.number) :
  JS.le 0%float v && JS.le v 1%float = true -> JS.truthy v = false ->
  v = zero \/ v = neg_zero.
Proof.
  intros Hr Hv. apply andb_prop in Hr as [H0 _].
  apply leb_not_nan in H0. unfold JS.truthy in Hv. rewrite H0 in Hv.
  rewrite orb_false_r in Hv. apply negb_false_iff in Hv.
  unfold PrimFloat.is_zero in Hv. rewrite FloatAxioms.eqb_spec in Hv.
  change (Prim2SF zero) with (S754_zero false) in Hv.
  destruct (Prim2SF v) as [s | s | | s m e] eqn:E;
    try discriminate; try (destruct s; discriminate).
  apply JSFacts.zero_cases in E. destruct s; auto.
Qed.

Lemma setVolume_changes (v : JS.number) (e : HTMLMediaElement)
    (m : JS.number) (l : list JS.number) :
  JS.strict_neq v (volume e) = true ->
  JS.le 0%float v && JS.le v 1%float = true ->
  setVolume v (mk (Some e) m l)
  = (inr tt, mk (Some {| volume := v |}) m (l ++ [v])).
Proof.
  intros Hne Hr. unfold setVolume, assignVolume. simpl.
  now rewrite Hne, Hr.
Qed.

Lemma setVolume_same (v : JS.number) (e : HTMLMediaElement)
    (m : JS.number) (l : list JS.number) :
  JS.strict_neq v (volume e) = false ->
  setVolume v (mk (Some e) m l) = (inr tt, mk (Some e) m l).
Proof. intros Hne. unfold setVolume. simpl. now rewrite Hne. Qed.

Lemma truthy_strict_neq_zero (v : JS.number) :
  JS.truthy v = true ->
  JS.strict_neq 0%float v = true /\ JS.strict_neq v 0%float = true.
Proof.
  intros H. apply NumberFacts.truthy_neq_zero in H.
  unfold JS.strict_neq. rewrite (NumberFacts.eqb_sym 0%float v), H.
  split; reflexivity.
Qed.

(** X21.  On an element whose volume is [v], [mute()] then [unMute()]
    complete and leave the volume at [v], after a [volumeChange] to [0]
    and one back to [v]; when [v] is [0] already they leave it at [0.1],
    with that one [volumeChange].  Either way the volume is not [0]
    afterwards. *)
Theorem mute_then_unMute (p : Volume.t) (v : JS.number) :
  currentVolume p = Some v ->
  JS.le 0%float v && JS.le v 1%float = true ->
  exists p',
    andThen mute unMute p = (inr tt, p') /\
    currentVolume p' = Some (if JS.truthy v then v else 0.1%float) /\
    triggered p'
    = triggered p ++ (if JS.truthy v then [0%float; v] else [0.1%float]) /\
    JS.truthy (if JS.truthy v then v else 0.1%float) = true.
Proof.
  destruct p as [[[w] |] m l]; [| discriminate].
  intros [= ->] Hr. unfold andThen, mute, getVolume. simpl.
  destruct (JS.truthy v) eqn:Hv.
  - destruct (truthy_strict_neq_zero v Hv) as [H0v Hv0].
    rewrite (setVolume_changes 0%float {| volume := v |} v l H0v)
      by reflexivity.
    unfold unMute, getVolume. simpl.
    rewrite (setVolume_changes v {| volume := 0%float |} v _ Hv0 Hr).
    eexists. split; [reflexivity |]. simpl.
    rewrite <- app_assoc. repeat split. exact Hv.
  - destruct (falsy_in_range v Hr Hv) as [-> | ->];
      eexists; (split; [reflexivity |]); repeat split.
Qed.

(** X22.  [mute()] twice then [unMute()]: the second [mute()] finds the
    volume at [0] and memorises [0.1], so whatever the volume was,
    [unMute()] leaves it at [0.1]. *)
Theorem mute_twice_forgets (p : Volume.t) (v : JS.number) :
  currentVolume p = Some v ->
  JS.le 0%float v && JS.le v 1%float = true ->
  exists p',
    andThen mute (andThen mute unMute) p = (inr tt, p') /\
    currentVolume p' = Some 0.1%float /\
    _mutedMemory p' = 0.1%float.
Proof.
  destruct p as [[[w] |] m l]; [| discriminate].
  intros [= ->] Hr. unfold andThen at 1. unfold mute at 1, getVolume.
  simpl.
  destruct (JS.truthy v) eqn:Hv.
  - destruct (truthy_strict_neq_zero v Hv) as [H0v Hv0].
    rewrite (setVolume_changes 0%float {| volume := v |} v l H0v)
      by reflexivity.
    eexists. split; [reflexivity |]. split; reflexivity.
  - destruct (falsy_in_range v Hr Hv) as [-> | ->];
      eexists; (split; [reflexivity |]); split; reflexivity.
Qed.

(** *** What every run of calls keeps *)

Lemma payloadsDiffer_snoc (l : list JS.number) (x : JS.number) :
  payloadsDiffer l ->
  (forall w, last l = Some w -> JS.strict_neq x w = true) ->
  payloadsDiffer (l ++ [x]).
Proof.
  induction l as [| y [| z l] IH]; simpl; intros H Hx.
  - exact I.
  - split; [now apply Hx | exact I].
  - destruct H as [Hyz H]. split; [exact Hyz |]. apply IH; assumption.
Qed.

Lemma setVolume_consistent (v : JS.number) (p : Volume.t) :
  consistent p -> consistent (snd (setVolume v p)).
Proof.
  intros Hp. pose proof Hp as (Hr & Hm & Hd & Hl).
  destruct p as [[[w] |] m l]; [| destruct Hr].
  unfold setVolume. simpl.
  destruct (JS.strict_neq v w) eqn:Hne; [| exact Hp].
  unfold assignVolume.
  destruct (JS.le 0%float v && JS.le v 1%float) eqn:Hv;
    [| destruct (is_finite v); exact Hp].
  simpl. split; [exact Hv |]. split; [exact Hm |]. split.
  - apply payloadsDiffer_snoc; [exact Hd |].
    intros u Hu. apply Hl in Hu. injection Hu as <-. exact Hne.
  - intros u. simpl. rewrite last_snoc. now intros [= <-].
Qed.

Lemma perform_consistent (c : Call) (p : Volume.t) :
  consistent p -> consistent (snd (perform c p)).
Proof.
  intros Hp. destruct c as [v | |]; simpl.
  - now apply setVolume_consistent.
  - pose proof Hp as (Hr & Hm & Hd & Hl).
    destruct p as [[[w] |] m l]; [| destruct Hr].
    unfold mute, getVolume. simpl. apply setVolume_consistent.
    split; [exact Hr |]. split; [| split; assumption].
    unfold memoryUsable. simpl.
    destruct (JS.truthy w) eqn:Hw; [| split; reflexivity].
    split; [exact Hr | exact Hw].
  - pose proof Hp as (Hr & _).
    destruct p as [[[w] |] m l]; [| destruct Hr].
    unfold unMute, getVolume. simpl.
    destruct (PrimFloat.eqb w 0); [| exact Hp].
    now apply setVolume_consistent.
Qed.

(** X23.  Through every run of [setVolume], [mute] and [unMute] on a new
    player, whatever their arguments and whether they throw: the volume
    of the element stays within [0, 1]; [_mutedMemory] stays within
    [0, 1] and is not [0]; each [volumeChange] carries a value [!==] to
    the one before it; and the last [volumeChange] carries the volume the
    element has. *)
Theorem volume_stays_consistent (element : HTMLMediaElement)
    (calls : list Call) :
  JS.le 0%float (volume element) && JS.le (volume element) 1%float = true ->
  consistent (performAll calls (new element)).
Proof.
  intros Hr.
  assert (H : consistent (new element)).
  { split; [exact Hr |]. split; [split; reflexivity |].
    split; [exact I | discriminate]. }
  revert H. unfold performAll. generalize (new element).
  induction calls as [| c calls IH]; intros p Hp; simpl; [exact Hp |].
  apply IH. now apply perform_consistent.
Qed.

Lemma mute_then_unMute_witness :
  exists p',
    andThen mute unMute (new {| volume := 0.5%float |}) = (inr tt, p') /\
    currentVolume p' = Some 0.5%float /\
    triggered p' = [0%float; 0.5%float].
Proof.
  destruct (mute_then_unMute (new {| volume := 0.5%float |}) 0.5%float)
    as (p' & E & V & T & _); [reflexivity | reflexivity |].
  exists p'. split; [exact E |]. split; [exact V | exact T].
Defined.

Lemma mute_twice_forgets_witness :
  exists p',
    andThen mute (andThen mute unMute) (new {| volume := 0.5%float |})
    = (inr tt, p') /\
    currentVolume p' = Some 0.1%float.
Proof.
  destruct (mute_twice_forgets (new {| volume := 0.5%float |}) 0.5%float)
    as (p' & E & V & _); [reflexivity | reflexivity |].
  exists p'. split; [exact E | exact V].
Defined.

Lemma volume_stays_consistent_witness :
  consistent
    (performAll [CallSetVolume 2%float; CallMute; CallMute; CallUnMute;
                 CallSetVolume nan; CallSetVolume 1%float]
       (new {| volume := 0.5%float |})).
Proof.
  apply (volume_stays_consistent {| volume := 0.5%float |}). reflexivity.
Defined.

End VolumeProofs.
